(** * The receive / forward path of pion_webrtc (sgotti fork)

    A shallow embedding of

    - [RTPReceiver] with [NewRTPReceiver], [Receive], [haveReceived] and
      [Stop] (rtpreceiver.go), and
    - the two [OnTrack] handlers of the examples: the per-stream forward
      loop and the feedback ticker (examples/simulcast/main.go and its
      single-stream sibling).

    Go values are modelled as follows.  An [error] interface value is an
    [option error] ([None] is [nil]); a pointer that may be [nil] is an
    [option]; a channel that is only ever closed and polled
    ([closed], [received]) is the [bool] "has been closed"; a [uint32] is
    an [N].  Calls into collaborators (the DTLS transport, the SRTP
    sessions, [ReadRTP], [WriteRTP], [WriteRTCP]) take their results from
    an explicit environment and leave an event in a trace. *)

From Stdlib Require Import NArith DecimalString DecimalPos DecimalN.
From stdpp Require Import gmap strings list.



(** ** Go base types *)

Definition uint32 := N.
Definition uint64 := N.
Bind Scope N_scope with uint32 uint64.

(** [strconv.FormatUint(n, 10)] *)
Definition FormatUint10 (n : uint64) : string :=
  NilZero.string_of_uint (N.to_uint n).

(** Go [error] values.  [ErrClosedPipe] is the sentinel [io.ErrClosedPipe];
    [Errorf msg] is the value of [fmt.Errorf(msg)]; [ErrExternal] stands for
    any error handed back by a collaborator. *)
Inductive error : Type :=
| ErrClosedPipe
| Errorf (msg : string)
| ErrExternal (code : nat).

#[global] Instance error_eq_dec : EqDecision error.
Proof. solve_decision. Defined.

(** What a goroutine dies from: [panic(v)] with an [error] interface value
    (possibly [nil]), or the runtime's nil-pointer dereference. *)
Inductive panic_value : Type :=
| PanicError (v : option error)
| PanicNilDereference.

(** ** rtpreceiver.go *)

Inductive RTPCodecType : Type :=
| RTPCodecTypeAudio
| RTPCodecTypeVideo.

Record ReadStreamSRTP := { srtp_stream_ssrc : uint32 }.
Record ReadStreamSRTCP := { srtcp_stream_ssrc : uint32 }.

(** A session is what [OpenReadStream] answers for each SSRC: Go's pair of
    a stream pointer and an error. *)
Definition SessionSRTP := uint32 -> option ReadStreamSRTP * option error.
Definition SessionSRTCP := uint32 -> option ReadStreamSRTCP * option error.

Record DTLSTransport := {
  getSRTPSession : SessionSRTP * option error;
  getSRTCPSession : SessionSRTCP * option error
}.

(** One entry of [RTPReceiveParameters.Encodings]. *)
Record RTPDecodingParameters := {
  enc_RID : string;
  enc_SSRC : uint32
}.

Record RTPReceiveParameters := {
  Encodings : list RTPDecodingParameters
}.

(** [TrackRTPStream]; its [track] back pointer is not represented. *)
Record TrackRTPStream := {
  id : string;
  rid : string;
  ssrc : uint32;
  ready : bool
}.

(** The inbound [Track] as [Receive] builds it; [streams] is a slice of
    pointers, [None] being [nil].  The [receiver] back pointer is not
    represented. *)
Record Track := {
  kind : RTPCodecType;
  streams : list (option TrackRTPStream);
  multiStream : bool
}.

Record RTPReceiver := {
  r_kind : RTPCodecType;
  r_transport : DTLSTransport;
  r_track : option Track;
  closed : bool;
  received : bool;
  rtpReadStream : option ReadStreamSRTP;
  rtcpReadStream : option ReadStreamSRTCP
}.

(** Calls that leave the receiver. *)
Inductive receiver_event : Type :=
| EvGetSRTPSession
| EvOpenReadStreamSRTP (s : uint32)
| EvGetSRTCPSession
| EvOpenReadStreamSRTCP (s : uint32)
| EvCloseSRTCP (s : ReadStreamSRTCP)
| EvCloseSRTP (s : ReadStreamSRTP).

(** [(api *API) NewRTPReceiver(kind, transport)] *)
Definition NewRTPReceiver (k : RTPCodecType) (transport : option DTLSTransport)
  : option RTPReceiver * option error :=
  match transport with
  | None => (None, Some (Errorf "DTLSTransport must not be nil"))
  | Some t =>
      (Some {| r_kind := k; r_transport := t; r_track := None;
               closed := false; received := false;
               rtpReadStream := None; rtcpReadStream := None |}, None)
  end.

(** Field updates. *)
Definition set_track (t : Track) (r : RTPReceiver) : RTPReceiver :=
  {| r_kind := r_kind r; r_transport := r_transport r; r_track := Some t;
     closed := closed r; received := received r;
     rtpReadStream := rtpReadStream r; rtcpReadStream := rtcpReadStream r |}.

Definition set_rtpReadStream (s : option ReadStreamSRTP) (r : RTPReceiver) : RTPReceiver :=
  {| r_kind := r_kind r; r_transport := r_transport r; r_track := r_track r;
     closed := closed r; received := received r;
     rtpReadStream := s; rtcpReadStream := rtcpReadStream r |}.

Definition set_rtcpReadStream (s : option ReadStreamSRTCP) (r : RTPReceiver) : RTPReceiver :=
  {| r_kind := r_kind r; r_transport := r_transport r; r_track := r_track r;
     closed := closed r; received := received r;
     rtpReadStream := rtpReadStream r; rtcpReadStream := s |}.

(** [close(r.received)] *)
Definition close_received (r : RTPReceiver) : RTPReceiver :=
  {| r_kind := r_kind r; r_transport := r_transport r; r_track := r_track r;
     closed := closed r; received := true;
     rtpReadStream := rtpReadStream r; rtcpReadStream := rtcpReadStream r |}.

(** [close(r.closed)] *)
Definition close_closed (r : RTPReceiver) : RTPReceiver :=
  {| r_kind := r_kind r; r_transport := r_transport r; r_track := r_track r;
     closed := true; received := received r;
     rtpReadStream := rtpReadStream r; rtcpReadStream := rtcpReadStream r |}.

Definition set_stream_ssrc (v : uint32) (s : TrackRTPStream) : TrackRTPStream :=
  {| id := id s; rid := rid s; ssrc := v; ready := ready s |}.

Definition set_stream_ready (b : bool) (s : TrackRTPStream) : TrackRTPStream :=
  {| id := id s; rid := rid s; ssrc := ssrc s; ready := b |}.

Definition set_streams (l : list (option TrackRTPStream)) (t : Track) : Track :=
  {| kind := kind t; streams := l; multiStream := multiStream t |}.

(** [t.streams[i].f = v]: a write through the pointer in slot [i]. *)
Definition update_stream (i : nat) (f : TrackRTPStream -> TrackRTPStream) (t : Track) : Track :=
  set_streams (alter (fmap f) i (streams t)) t.

(** [haveReceived] *)
Definition haveReceived (r : RTPReceiver) : bool := received r.

(** The track literal of [Receive]: [make([]*TrackRTPStream, n)] is [n]
    nil pointers. *)
Definition new_track (r : RTPReceiver) (parameters : RTPReceiveParameters) : Track :=
  {| kind := r_kind r;
     streams := replicate (length (Encodings parameters)) None;
     multiStream := bool_decide (1 < length (Encodings parameters)) |}.

(** The body of [for i, enc := range parameters.Encodings] for one
    iteration. *)
Definition Receive_body (i : nat) (enc : RTPDecodingParameters) (t : Track) : Track :=
  let streamId := FormatUint10 (enc_SSRC enc) in
  let t := set_streams
             (<[i := Some {| id := streamId; rid := enc_RID enc;
                             ssrc := enc_SSRC enc; ready := false |}]> (streams t)) t in
  update_stream 0 (set_stream_ssrc (enc_SSRC enc)) t.

(** The range loop itself.  Its body ends in an unconditional [break]
    ("only one ssrc is supported"), so whatever follows the first entry is
    never visited. *)
Definition Receive_loop (i : nat) (encs : list RTPDecodingParameters) (t : Track) : Track :=
  match encs with
  | [] => t
  | enc :: _ => Receive_body i enc t
  end.

Definition ErrNoEncodings : error := Errorf "no encodings provided".
Definition ErrAlreadyReceiving : error := Errorf "Receive has already been called".

(** [(r *RTPReceiver) Receive(parameters)].  [defer close(r.received)] is
    registered once both guards are passed, so each later [return] goes
    through [close_received]. *)
Definition Receive (r : RTPReceiver) (parameters : RTPReceiveParameters)
  : RTPReceiver * option error * list receiver_event :=
  match Encodings parameters with
  | [] => (r, Some ErrNoEncodings, [])
  | enc0 :: _ =>
      if received r then (r, Some ErrAlreadyReceiving, [])
      else
        let r := set_track (Receive_loop 0 (Encodings parameters) (new_track r parameters)) r in
        let '(srtpSession, err) := getSRTPSession (r_transport r) in
        match err with
        | Some e => (close_received r, Some e, [EvGetSRTPSession])
        | None =>
            let '(s, err) := srtpSession (enc_SSRC enc0) in
            let r := set_rtpReadStream s r in
            let tr := [EvGetSRTPSession; EvOpenReadStreamSRTP (enc_SSRC enc0)] in
            match err with
            | Some e => (close_received r, Some e, tr)
            | None =>
                let '(srtcpSession, err) := getSRTCPSession (r_transport r) in
                let tr := tr ++ [EvGetSRTCPSession] in
                match err with
                | Some e => (close_received r, Some e, tr)
                | None =>
                    let '(s, err) := srtcpSession (enc_SSRC enc0) in
                    let r := set_rtcpReadStream s r in
                    let tr := tr ++ [EvOpenReadStreamSRTCP (enc_SSRC enc0)] in
                    match err with
                    | Some e => (close_received r, Some e, tr)
                    | None =>
                        let r := match r_track r with
                                 | Some t => set_track (update_stream 0 (set_stream_ready true) t) r
                                 | None => r
                                 end in
                        (close_received r, None, tr)
                    end
                end
            end
        end
  end.

(** What the two [Close] calls of one [Stop] answer, if they are made. *)
Record CloseResults := {
  rtcp_Close : option error;
  rtp_Close : option error
}.

(** [(r *RTPReceiver) Stop()] *)
Definition Stop (r : RTPReceiver) (io : CloseResults)
  : RTPReceiver * option error * list receiver_event :=
  if closed r then (r, None, [])
  else if received r then
    let '(err1, tr1) :=
      match rtcpReadStream r with
      | Some s => (rtcp_Close io, [EvCloseSRTCP s])
      | None => (None, [])
      end in
    match err1 with
    | Some e => (r, Some e, tr1)
    | None =>
        let '(err2, tr2) :=
          match rtpReadStream r with
          | Some s => (rtp_Close io, [EvCloseSRTP s])
          | None => (None, [])
          end in
        match err2 with
        | Some e => (r, Some e, tr1 ++ tr2)
        | None => (close_closed r, None, tr1 ++ tr2)
        end
    end
  else (close_closed r, None, []).

(** The lifecycle of the specification, read off the two channels. *)
Inductive lifecycle : Type := Created | Receiving | Stopped.

Definition state_of (r : RTPReceiver) : lifecycle :=
  if closed r then Stopped else if received r then Receiving else Created.

(** ** The examples: forwarding and feedback *)

(** [rtp.Packet], as far as the header goes; the loops below touch [SSRC]
    only. *)
Record Packet := {
  Marker : bool;
  PayloadType : N;
  SequenceNumber : N;
  Timestamp : uint32;
  SSRC : uint32;
  Payload : list N
}.

(** [packet.SSRC = v] *)
Definition set_SSRC (v : uint32) (p : Packet) : Packet :=
  {| Marker := Marker p; PayloadType := PayloadType p;
     SequenceNumber := SequenceNumber p; Timestamp := Timestamp p;
     SSRC := v; Payload := Payload p |}.

(** The outbound [*webrtc.Track] that [peerConnection.NewTrack(payloadType,
    ssrc, id, label)] hands back; [out_SSRC] is its [SSRC()] accessor. *)
Record OutboundTrack := {
  out_PayloadType : N;
  out_SSRC : uint32;
  out_ID : string;
  out_Label : string
}.

(** The two RTCP messages the ticker builds.  Fields left out of the Go
    literal carry their zero value. *)
Inductive rtcp_Packet : Type :=
| PictureLossIndication (SenderSSRC MediaSSRC : uint32)
| ReceiverEstimatedMaximumBitrate (SenderSSRC : uint32) (Bitrate : uint64) (SSRCs : list uint32).

Inductive printf_arg : Type :=
| ArgString (s : string)
| ArgUint32 (n : uint32).

(** What a goroutine of an [OnTrack] handler does to the outside. *)
Inductive event : Type :=
| EvReadRTP (rid : string)
| EvWriteRTP (target : OutboundTrack) (p : Packet)
| EvWriteRTCP (pkts : list rtcp_Packet)
| EvPrintf (format : string) (args : list printf_arg)
| EvPrintln (e : error).

(** The environment of one turn of a forward loop: what [ReadRTP] returns
    (a packet pointer and an error) and what [WriteRTP] returns if it is
    reached. *)
Record iteration := {
  read_packet : option Packet;
  read_err : option error;
  write_err : option error
}.

(** How far a [for { ... }] got on a finite script of iterations: it is
    either waiting for the next one or dead. *)
Inductive outcome : Type :=
| Running
| Panicked (v : panic_value).

(** [main]'s map literal and its three assignments; the SSRCs come from
    [rand.Uint32()]. *)
Definition outputTracks (payloadType : N) (ssrc_q ssrc_h ssrc_f : uint32)
  : gmap string OutboundTrack :=
  <["f" := {| out_PayloadType := payloadType; out_SSRC := ssrc_f;
              out_ID := "video_f"; out_Label := "pion_f" |}]>
  (<["h" := {| out_PayloadType := payloadType; out_SSRC := ssrc_h;
               out_ID := "video_h"; out_Label := "pion_h" |}]>
  (<["q" := {| out_PayloadType := payloadType; out_SSRC := ssrc_q;
               out_ID := "video_q"; out_Label := "pion_q" |}]> ∅)).

(** [packet.SSRC = outputTracks[rid].SSRC()] followed by
    [outputTracks[rid].WriteRTP(packet)] and the test of its error, shared
    by both handlers.  A missing key yields a nil [*Track], a failed read
    usually a nil [*rtp.Packet]; using either is a nil dereference. *)
Definition rewrite_and_write (tracks : gmap string OutboundTrack) (rid : string)
    (packet : option Packet) (writeErr : option error)
  : list event * option panic_value :=
  match tracks !! rid, packet with
  | Some out, Some p =>
      let p := set_SSRC (out_SSRC out) p in
      ([EvWriteRTP out p],
       match writeErr with
       | Some e => if decide (e = ErrClosedPipe) then None else Some (PanicError (Some e))
       | None => None
       end)
  | _, _ => ([], Some PanicNilDereference)
  end.

(** Runs a loop body over a script until the script ends or the body
    panics. *)
Fixpoint run_loop (body : iteration -> list event * option panic_value)
    (script : list iteration) : list event * outcome :=
  match script with
  | [] => ([], Running)
  | it :: rest =>
      match body it with
      | (tr, Some v) => (tr, Panicked v)
      | (tr, None) => let '(tr', o) := run_loop body rest in (tr ++ tr', o)
      end
  end.

Module Echo.

(** One turn of [for { packet, err := inStream.ReadRTP(); ... }]. *)
Definition forward_body (tracks : gmap string OutboundTrack) (rid : string)
    (it : iteration) : list event * option panic_value :=
  match read_err it with
  | Some e => ([EvReadRTP rid], Some (PanicError (Some e)))
  | None =>
      let '(tr, p) := rewrite_and_write tracks rid (read_packet it) (write_err it) in
      (EvReadRTP rid :: tr, p)
  end.

Definition forward_loop (tracks : gmap string OutboundTrack) (inStream : TrackRTPStream)
    (script : list iteration) : list event * outcome :=
  run_loop (forward_body tracks (rid inStream)) script.

(** One [case <-ticker.C] of the feedback goroutine; [w] holds what the
    two [WriteRTCP] calls return. *)
Definition feedback_tick (inStream : TrackRTPStream) (w : option error * option error)
  : list event :=
  [EvPrintf "Sending pli for ssrc: %d\n" [ArgUint32 (ssrc inStream)];
   EvWriteRTCP [PictureLossIndication 0 (ssrc inStream)]]
  ++ from_option (λ e, [EvPrintln e]) [] w.1
  ++ [EvWriteRTCP [ReceiverEstimatedMaximumBitrate (ssrc inStream) 10000000 []]]
  ++ from_option (λ e, [EvPrintln e]) [] w.2.

Definition feedback_loop (inStream : TrackRTPStream)
    (ticks : list (option error * option error)) : list event :=
  concat (feedback_tick inStream <$> ticks).

End Echo.

Module Simulcast.

(** One turn of the simulcast [for { ... }].  The test after [ReadRTP]
    is on [err], the variable of [main] that the closure captures, and
    not on [readErr]; [readErr] is only what [panic] is given. *)
Definition forward_body (tracks : gmap string OutboundTrack) (err : option error)
    (rid : string) (it : iteration) : list event * option panic_value :=
  match err with
  | Some _ => ([EvReadRTP rid], Some (PanicError (read_err it)))
  | None =>
      let '(tr, p) := rewrite_and_write tracks rid (read_packet it) (write_err it) in
      (EvReadRTP rid :: tr, p)
  end.

Definition forward_loop (tracks : gmap string OutboundTrack) (err : option error)
    (inStream : TrackRTPStream) (script : list iteration) : list event * outcome :=
  run_loop (forward_body tracks err (rid inStream)) script.

(** One turn of [for range ticker.C]. *)
Definition feedback_tick (inStream : TrackRTPStream) (w : option error * option error)
  : list event :=
  [EvPrintf "Sending pli for stream with rid: %q, ssrc: %d\n"
     [ArgString (rid inStream); ArgUint32 (ssrc inStream)];
   EvWriteRTCP [PictureLossIndication 0 (ssrc inStream)]]
  ++ from_option (λ e, [EvPrintln e]) [] w.1
  ++ [EvPrintf "Sending remb for stream with rid: %q, ssrc: %d\n"
        [ArgString (rid inStream); ArgUint32 (ssrc inStream)];
      EvWriteRTCP [ReceiverEstimatedMaximumBitrate (ssrc inStream) 10000000 []]]
  ++ from_option (λ e, [EvPrintln e]) [] w.2.

Definition feedback_loop (inStream : TrackRTPStream)
    (ticks : list (option error * option error)) : list event :=
  concat (feedback_tick inStream <$> ticks).

End Simulcast.

(** ** Sequences of calls on one receiver *)

Inductive call : Type :=
| CallReceive (parameters : RTPReceiveParameters)
| CallStop (io : CloseResults).

Definition do_call (r : RTPReceiver) (c : call)
  : RTPReceiver * option error * list receiver_event :=
  match c with
  | CallReceive parameters => Receive r parameters
  | CallStop io => Stop r io
  end.

(** The receiver after the calls [cs], made one after the other. *)
Definition run_calls (r : RTPReceiver) (cs : list call) : RTPReceiver :=
  foldl (λ r c, (do_call r c).1.1) r cs.

(** ** Properties as the specification words them *)

(** "Every layer identifier of the input list is in the track's layer
    sequence, at the same position." *)
Definition rids_in_order (parameters : RTPReceiveParameters) (t : Track) : Prop :=
  ∀ i enc, Encodings parameters !! i = Some enc →
           ∃ s, streams t !! i = Some (Some s) ∧ rid s = enc_RID enc.

(** "A [Receive] that returns an error leaves the latch unsignaled." *)
Definition latch_only_on_success (r : RTPReceiver) (parameters : RTPReceiveParameters) : Prop :=
  (Receive r parameters).1.2 ≠ None → received (Receive r parameters).1.1 = false.

(** The reads and the writes of a trace, in order. *)
Definition rtp_reads (tr : list event) : list string :=
  omap (λ e, match e with EvReadRTP r => Some r | _ => None end) tr.

Definition rtp_writes (tr : list event) : list (OutboundTrack * Packet) :=
  omap (λ e, match e with EvWriteRTP o p => Some (o, p) | _ => None end) tr.

(** "A failed read ends the loop: nothing is forwarded for it and nothing
    is read after it."  [res] is what a loop did on [script]. *)
Definition read_error_is_fatal (script : list iteration) (res : list event * outcome) : Prop :=
  ∀ pre it post,
    script = pre ++ it :: post →
    is_Some (read_err it) →
    Forall (λ it', read_err it' = None) pre →
    res.2 ≠ Running ∧
    length (rtp_reads res.1) ≤ S (length pre) ∧
    length (rtp_writes res.1) ≤ length pre.

(** The RTCP compound packets a trace sends, in order. *)
Definition rtcp_sent (tr : list event) : list (list rtcp_Packet) :=
  omap (λ e, match e with EvWriteRTCP pkts => Some pkts | _ => None end) tr.

(** ** Sample inputs *)

Definition transport_ok : DTLSTransport :=
  {| getSRTPSession := (λ s, (Some {| srtp_stream_ssrc := s |}, None), None);
     getSRTCPSession := (λ s, (Some {| srtcp_stream_ssrc := s |}, None), None) |}.

(** A transport whose SRTP session cannot open the RTP read stream. *)
Definition transport_rtp_open_fails : DTLSTransport :=
  {| getSRTPSession := (λ _, (None, Some (ErrExternal 1)), None);
     getSRTCPSession := (λ s, (Some {| srtcp_stream_ssrc := s |}, None), None) |}.

Definition receiver_on (t : DTLSTransport) : RTPReceiver :=
  {| r_kind := RTPCodecTypeVideo; r_transport := t; r_track := None;
     closed := false; received := false;
     rtpReadStream := None; rtcpReadStream := None |}.

Definition encodings_qhf : RTPReceiveParameters :=
  {| Encodings := [ {| enc_RID := "q"; enc_SSRC := 1001 |};
                    {| enc_RID := "h"; enc_SSRC := 1002 |};
                    {| enc_RID := "f"; enc_SSRC := 1003 |} ] |}.

Definition encodings_single : RTPReceiveParameters :=
  {| Encodings := [ {| enc_RID := ""; enc_SSRC := 111 |} ] |}.

Definition encodings_none : RTPReceiveParameters := {| Encodings := [] |}.

Definition close_ok : CloseResults := {| rtcp_Close := None; rtp_Close := None |}.
Definition close_rtp_fails : CloseResults :=
  {| rtcp_Close := None; rtp_Close := Some (ErrExternal 2) |}.

Definition stream_q : TrackRTPStream :=
  {| id := "1001"; rid := "q"; ssrc := 1001; ready := true |}.

Definition tracks_qhf : gmap string OutboundTrack := outputTracks 96 7001 7002 7003.

Definition out_q : OutboundTrack :=
  {| out_PayloadType := 96; out_SSRC := 7001; out_ID := "video_q"; out_Label := "pion_q" |}.

Definition packet_of (seq : N) (s : uint32) : Packet :=
  {| Marker := false; PayloadType := 96; SequenceNumber := seq;
     Timestamp := 0; SSRC := s; Payload := [] |}.

Definition turn (p : option Packet) (rd wr : option error) : iteration :=
  {| read_packet := p; read_err := rd; write_err := wr |}.

(** ** rtpreceiver.go: the accessors and the blocking reads *)

(** [(r *RTPReceiver) Transport()] and [(r *RTPReceiver) Track()] *)
Definition Transport (r : RTPReceiver) : DTLSTransport := r_transport r.
Definition Track_of (r : RTPReceiver) : option Track := r_track r.

(** What a call that starts with [<-r.received] comes to, seen at one
    state of the receiver: it is still waiting on the latch, or it has
    called [Read] on a nil stream pointer, or it has the answer of the
    stream [s]: the buffer as the stream left it, the count and the
    error. *)
Inductive read_outcome (S : Type) : Type :=
| ReadBlocked
| ReadOnNil
| ReadDone (s : S) (b : list N) (n : Z) (err : option error).
Arguments ReadBlocked {S}.
Arguments ReadOnNil {S}.
Arguments ReadDone {S} s b n err.

(** What a stream's [Read(b)] answers: the buffer after the call, the
    count and the error. *)
Definition stream_read (S : Type) := S → list N → list N * Z * option error.

(** [(r *RTPReceiver) Read(b)] *)
Definition Read (r : RTPReceiver) (b : list N) (rd : stream_read ReadStreamSRTCP)
  : read_outcome ReadStreamSRTCP :=
  if received r then
    match rtcpReadStream r with
    | Some s => let '(b', n, err) := rd s b in ReadDone s b' n err
    | None => ReadOnNil
    end
  else ReadBlocked.

(** [(r *RTPReceiver) readRTP(b)] *)
Definition readRTP (r : RTPReceiver) (b : list N) (rd : stream_read ReadStreamSRTP)
  : read_outcome ReadStreamSRTP :=
  if received r then
    match rtpReadStream r with
    | Some s => let '(b', n, err) := rd s b in ReadDone s b' n err
    | None => ReadOnNil
    end
  else ReadBlocked.

(** What [ReadRTCP] comes to; [P] is [rtcp.Packet]. *)
Inductive ReadRTCP_outcome (P : Type) : Type :=
| RTCPBlocked
| RTCPOnNil
| RTCPSliceOutOfRange
| RTCPReturned (pkts : option (list P)) (err : option error).
Arguments RTCPBlocked {P}.
Arguments RTCPOnNil {P}.
Arguments RTCPSliceOutOfRange {P}.
Arguments RTCPReturned {P} pkts err.

(** [(r *RTPReceiver) ReadRTCP()].  [receiveMTU] and [rtcp.Unmarshal] are
    declared elsewhere and taken as given.  [b[:i]] is in range for
    [0 <= i <= cap(b)]. *)
Definition ReadRTCP {P : Type} (receiveMTU : nat)
    (Unmarshal : list N → option (list P) * option error)
    (r : RTPReceiver) (rd : stream_read ReadStreamSRTCP) : ReadRTCP_outcome P :=
  let b := replicate receiveMTU 0%N in
  match Read r b rd with
  | ReadBlocked => RTCPBlocked
  | ReadOnNil => RTCPOnNil
  | ReadDone _ b' i err =>
      match err with
      | Some e => RTCPReturned None (Some e)
      | None =>
          if bool_decide (0 ≤ i ≤ Z.of_nat (length b'))%Z
          then let '(pkts, e) := Unmarshal (take (Z.to_nat i) b') in RTCPReturned pkts e
          else RTCPSliceOutOfRange
      end
  end.

(** Everything the calls [cs], made one after the other, do to the
    outside. *)
Fixpoint calls_trace (r : RTPReceiver) (cs : list call) : list receiver_event :=
  match cs with
  | [] => []
  | c :: cs => (do_call r c).2 ++ calls_trace (do_call r c).1.1 cs
  end.

(** The order of the lifecycle. *)
Definition lifecycle_rank (s : lifecycle) : nat :=
  match s with Created => 0 | Receiving => 1 | Stopped => 2 end.

(** What holds of a receiver however it was driven: as long as the latch
    is open it has neither a track nor a stream, and a track it has is of
    the receiver's kind, has a layer in slot 0 and nil in every other
    slot, and is multi-stream exactly if it has more than one slot. *)
Definition receiver_inv (r : RTPReceiver) : Prop :=
  (received r = false →
     r_track r = None ∧ rtpReadStream r = None ∧ rtcpReadStream r = None) ∧
  (∀ t, r_track r = Some t →
     kind t = r_kind r ∧
     (∃ s0 n, streams t = Some s0 :: replicate n None) ∧
     multiStream t = bool_decide (1 < length (streams t))).

(** The inverse of [FormatUint10] on what it produces. *)
Definition ParseUint10 (s : string) : option uint64 :=
  N.of_uint <$> NilZero.uint_of_string s.

(** ** The examples: the feedback log and [main] *)

(** The errors a trace prints with [fmt.Println], in order. *)
Definition logged (tr : list event) : list error :=
  omap (λ e, match e with EvPrintln e => Some e | _ => None end) tr.

(** A turn on which nothing stops a forward loop: the read gives a packet
    and no error, and the write works or finds the pipe closed. *)
Definition healthy (it : iteration) : Prop :=
  read_err it = None ∧ is_Some (read_packet it) ∧
  (write_err it = None ∨ write_err it = Some ErrClosedPipe).

(** What a loop bound to [out] writes for the packets [qs], in order. *)
Definition rewritten (out : OutboundTrack) (qs : list Packet) : list (OutboundTrack * Packet) :=
  (λ q, (out, set_SSRC (out_SSRC out) q)) <$> qs.

(** The errors two [WriteRTCP] calls of a tick returned, in order. *)
Definition tick_errors (w : option error * option error) : list error :=
  option_list w.1 ++ option_list w.2.

(** [webrtc.RTPCodec], of which [main] reads the payload type. *)
Record RTPCodec := { codec_PayloadType : N }.

(** What [main]'s collaborators answer. *)
Record MainEnv := {
  env_PopulateFromSDP : option error;
  env_GetCodecsByKind : list RTPCodec;
  env_NewPeerConnection : option error;
  env_rand : nat → uint32;
  env_NewTrack : string → option error;
  env_AddTrack : option OutboundTrack → option error;
  env_SetRemoteDescription : option error;
  env_CreateAnswer : option error;
  env_SetLocalDescription : option error
}.

Inductive main_event : Type :=
| MDecodeOffer
| MPopulateFromSDP
| MGetCodecsByKind
| MNewAPI
| MNewPeerConnection
| MNewTrack (payloadType : N) (s : uint32) (tid label : string)
| MAddTrack (t : option OutboundTrack)
| MPrintf (format : string)
| MSetRemoteDescription
| MOnTrack
| MOnICEConnectionStateChange
| MCreateAnswer
| MSetLocalDescription.

(** [panic(err)] and [panic("...")] *)
Inductive main_panic : Type :=
| MainPanicError (e : error)
| MainPanicString (s : string).

(** [main]'s variables that outlive a statement, its trace, and how many
    numbers it has drawn from [rand.Uint32()] ([env_rand] gives the
    [n]-th). *)
Record main_state := {
  m_trace : list main_event;
  m_err : option error;
  m_outputTracks : gmap string OutboundTrack;
  m_rand : nat
}.

Definition main_step := main_state → main_state * option main_panic.

Definition main_seq (a b : main_step) : main_step :=
  λ st, match a st with
        | (st', Some p) => (st', Some p)
        | (st', None) => b st'
        end.

Notation "a ;;; b" := (main_seq a b) (at level 90, right associativity).

Definition emit (ev : main_event) : main_step :=
  λ st, ({| m_trace := m_trace st ++ [ev]; m_err := m_err st;
            m_outputTracks := m_outputTracks st; m_rand := m_rand st |}, None).

(** [err = e] *)
Definition assign_err (e : option error) : main_step :=
  λ st, ({| m_trace := m_trace st; m_err := e;
            m_outputTracks := m_outputTracks st; m_rand := m_rand st |}, None).

(** [if err != nil { panic(err) }] *)
Definition panic_on_err : main_step :=
  λ st, (st, MainPanicError <$> m_err st).

(** [outputTrack, err := peerConnection.NewTrack(payloadType, rand.Uint32(),
    tid, label)], the test of [err], and [outputTracks[key] = outputTrack]. *)
Definition new_output_track (env : MainEnv) (payloadType : N) (key tid label : string)
  : main_step :=
  λ st,
    let s := env_rand env (m_rand st) in
    let st := {| m_trace := m_trace st ++ [MNewTrack payloadType s tid label];
                 m_err := env_NewTrack env tid;
                 m_outputTracks := m_outputTracks st; m_rand := S (m_rand st) |} in
    match m_err st with
    | Some e => (st, Some (MainPanicError e))
    | None =>
        ({| m_trace := m_trace st; m_err := m_err st;
            m_outputTracks :=
              <[key := {| out_PayloadType := payloadType; out_SSRC := s;
                          out_ID := tid; out_Label := label |}]> (m_outputTracks st);
            m_rand := m_rand st |}, None)
    end.

(** [if _, err = peerConnection.AddTrack(outputTracks[key]); err != nil
    { panic(err) }] *)
Definition add_output_track (env : MainEnv) (key : string) : main_step :=
  λ st,
    let t := m_outputTracks st !! key in
    (emit (MAddTrack t) ;;; assign_err (env_AddTrack env t) ;;; panic_on_err) st.

(** [main], up to the [select {}] it blocks in.  The two examples differ
    in the handler they register only. *)
Definition main (env : MainEnv) : main_state * option main_panic :=
  (emit MDecodeOffer ;;;
   emit MPopulateFromSDP ;;; assign_err (env_PopulateFromSDP env) ;;; panic_on_err ;;;
   emit MGetCodecsByKind ;;;
   (λ st,
      match env_GetCodecsByKind env with
      | [] => (st, Some (MainPanicString "Offer contained no video codecs"))
      | codec0 :: _ =>
          (emit MNewAPI ;;;
           emit MNewPeerConnection ;;; assign_err (env_NewPeerConnection env) ;;;
           panic_on_err ;;;
           new_output_track env (codec_PayloadType codec0) "q" "video_q" "pion_q" ;;;
           new_output_track env (codec_PayloadType codec0) "h" "video_h" "pion_h" ;;;
           new_output_track env (codec_PayloadType codec0) "f" "video_f" "pion_f" ;;;
           add_output_track env "q" ;;;
           add_output_track env "h" ;;;
           add_output_track env "f" ;;;
           emit (MPrintf "offer: %s\n") ;;;
           emit MSetRemoteDescription ;;; assign_err (env_SetRemoteDescription env) ;;;
           panic_on_err ;;;
           emit MOnTrack ;;;
           emit MOnICEConnectionStateChange ;;;
           emit MCreateAnswer ;;; assign_err (env_CreateAnswer env) ;;; panic_on_err ;;;
           emit (MPrintf "answer: %s\n") ;;;
           emit MSetLocalDescription ;;; assign_err (env_SetLocalDescription env) ;;;
           panic_on_err ;;;
           emit (MPrintf "Paste below base64 in browser:\n%v\n")) st
      end))
    {| m_trace := []; m_err := None; m_outputTracks := ∅; m_rand := 0 |}.

(** ** More sample inputs *)

(** A transport whose SRTCP session is not to be had. *)
Definition transport_srtcp_fails : DTLSTransport :=
  {| getSRTPSession := (λ s, (Some {| srtp_stream_ssrc := s |}, None), None);
     getSRTCPSession := (λ _, (None, None), Some (ErrExternal 3)) |}.

(** A transport whose SRTP session is not to be had. *)
Definition transport_srtp_fails : DTLSTransport :=
  {| getSRTPSession := (λ _, (None, None), Some (ErrExternal 4));
     getSRTCPSession := (λ s, (Some {| srtcp_stream_ssrc := s |}, None), None) |}.

Definition rd_rtcp_ok : stream_read ReadStreamSRTCP := λ _ b, (b, 0%Z, None).
Definition rd_rtp_ok : stream_read ReadStreamSRTP := λ _ b, (b, 0%Z, None).

Definition env_ok : MainEnv :=
  {| env_PopulateFromSDP := None;
     env_GetCodecsByKind := [ {| codec_PayloadType := 96 |} ];
     env_NewPeerConnection := None;
     env_rand := λ n, (7001 + N.of_nat n)%N;
     env_NewTrack := λ _, None;
     env_AddTrack := λ _, None;
     env_SetRemoteDescription := None;
     env_CreateAnswer := None;
     env_SetLocalDescription := None |}.

Definition env_no_codecs : MainEnv :=
  {| env_PopulateFromSDP := None;
     env_GetCodecsByKind := [];
     env_NewPeerConnection := None;
     env_rand := λ n, (7001 + N.of_nat n)%N;
     env_NewTrack := λ _, None;
     env_AddTrack := λ _, None;
     env_SetRemoteDescription := None;
     env_CreateAnswer := None;
     env_SetLocalDescription := None |}.

(** * Theorems *)

(** ** Receive *)

(** Splits [Receive] along its guards and along each answer of the
    transport. *)
Ltac receive_cases r p :=
  unfold Receive;
  destruct (Encodings p) as [|enc0 rest] eqn:Hencs;
  [ | destruct (received r) eqn:Hrecv;
      [ | cbn [r_transport set_track set_rtpReadStream set_rtcpReadStream];
          destruct (getSRTPSession (r_transport r)) as [srtp [e1|]];
          [ | destruct (srtp (enc_SSRC enc0)) as [s1 [e2|]];
              [ | cbn [r_transport set_track set_rtpReadStream set_rtcpReadStream];
                  destruct (getSRTCPSession (r_transport r)) as [srtcp [e3|]];
                  [ | destruct (srtcp (enc_SSRC enc0)) as [s2 [e4|]] ] ] ] ] ].

Lemma Receive_closed r p : closed (Receive r p).1.1 = closed r.
Proof. receive_cases r p; reflexivity. Qed.

Lemma Receive_received r p :
  received (Receive r p).1.1 = true ↔ received r = true ∨ Encodings p ≠ [].
Proof.
  receive_cases r p; cbn; rewrite ?Hrecv; split; intros; auto;
    try (right; discriminate); destruct_or?; congruence.
Qed.

Lemma Receive_guarded r p :
  Encodings p = [] ∨ received r = true → (Receive r p).1.1 = r.
Proof. intros [H|H]; receive_cases r p; try reflexivity; congruence. Qed.

Lemma Receive_success_fresh r p :
  (Receive r p).1.2 = None → received r = false.
Proof. receive_cases r p; cbn; congruence. Qed.

(** Splits [Stop] along its two polls and along each stream and each
    answer of [Close]. *)
Ltac stop_cases r io :=
  unfold Stop;
  destruct (closed r) eqn:Hclosed;
  [ | destruct (received r) eqn:Hrecv;
      [ destruct (rtcpReadStream r) as [s1|] eqn:Hrtcp;
        [ destruct (rtcp_Close io) as [e1|] eqn:Hc1 | ];
        try (destruct (rtpReadStream r) as [s2|] eqn:Hrtp;
             [ destruct (rtp_Close io) as [e2|] eqn:Hc2 | ])
      | ] ].

Lemma Stop_received r io : received (Stop r io).1.1 = received r.
Proof. stop_cases r io; cbn; congruence. Qed.

Lemma Stop_closed_mono r io : closed r = true → Stop r io = (r, None, []).
Proof. intros H. unfold Stop. by rewrite H. Qed.

Lemma do_call_received r c : received r = true → received (do_call r c).1.1 = true.
Proof.
  destruct c as [p|io]; cbn; intros H.
  - apply Receive_received. by left.
  - by rewrite Stop_received.
Qed.

Lemma do_call_closed r c : closed r = true → closed (do_call r c).1.1 = true.
Proof.
  destruct c as [p|io]; cbn; intros H.
  - by rewrite Receive_closed.
  - by rewrite Stop_closed_mono.
Qed.

Lemma run_calls_received r cs : received r = true → received (run_calls r cs) = true.
Proof.
  revert r. induction cs as [|c cs IH]; intros r H; [done|].
  cbn. apply IH. by apply do_call_received.
Qed.

Lemma run_calls_closed r cs : closed r = true → closed (run_calls r cs) = true.
Proof.
  revert r. induction cs as [|c cs IH]; intros r H; [done|].
  cbn. apply IH. by apply do_call_closed.
Qed.

Lemma Receive_already r p :
  received r = true → Encodings p ≠ [] → Receive r p = (r, Some ErrAlreadyReceiving, []).
Proof. intros H Hne. receive_cases r p; congruence. Qed.

Lemma Receive_latched_fails r p : received r = true → (Receive r p).1.2 ≠ None.
Proof. intros H. receive_cases r p; cbn; congruence. Qed.

(** What the range loop, with its [break], leaves in the slice. *)
Lemma Receive_loop_streams r p enc0 rest :
  Encodings p = enc0 :: rest →
  streams (Receive_loop 0 (Encodings p) (new_track r p)) =
    Some {| id := FormatUint10 (enc_SSRC enc0); rid := enc_RID enc0;
            ssrc := enc_SSRC enc0; ready := false |}
    :: replicate (length rest) None.
Proof. intros H. unfold new_track. rewrite H. reflexivity. Qed.

(** C2, as the specification has it, fails for the list [q], [h], [f]:
    [Receive] succeeds, yet only slot 0 of the track holds a layer;
    slots 1 and 2 stay nil, so [h] and [f] are not in the layer
    sequence. *)
Lemma Receive_qhf_only_first_layer :
  (Receive (receiver_on transport_ok) encodings_qhf).1.2 = None ∧
  ∃ t, r_track (Receive (receiver_on transport_ok) encodings_qhf).1.1 = Some t ∧
       rid <$> omap (λ s, s) (streams t) = ["q"] ∧
       streams t !! 1%nat = Some None ∧
       streams t !! 2%nat = Some None ∧
       ¬ rids_in_order encodings_qhf t.
Proof.
  split; [reflexivity|]. eexists. split; [reflexivity|].
  repeat split; try reflexivity.
  intros H. destruct (H 1%nat {| enc_RID := "h"; enc_SSRC := 1002 |} eq_refl) as (s & Hs & _).
  discriminate Hs.
Qed.

(** C2, amended: when [Receive] succeeds the track has one slot for each
    encoding of the input list; slot 0 holds a layer with the first
    encoding's RID and SSRC, its id being the SSRC in decimal, and marked
    ready; every later slot is nil. *)
Theorem Receive_track_layers r p r' tr :
  Receive r p = (r', None, tr) →
  ∃ enc0 rest t s0,
    Encodings p = enc0 :: rest ∧
    r_track r' = Some t ∧
    length (streams t) = length (Encodings p) ∧
    streams t = Some s0 :: replicate (length rest) None ∧
    rid s0 = enc_RID enc0 ∧
    ssrc s0 = enc_SSRC enc0 ∧
    id s0 = FormatUint10 (enc_SSRC enc0) ∧
    ready s0 = true ∧
    kind t = r_kind r ∧
    multiStream t = bool_decide (1 < length (Encodings p))%nat.
Proof.
  receive_cases r p; intros H; try discriminate H.
  injection H as <- <-.
  eexists enc0, rest, _, _. split; [reflexivity|].
  cbn. unfold new_track. rewrite Hencs.
  unfold update_stream, Receive_body, set_streams. simpl.
  split; [reflexivity|]. simpl.
  rewrite length_replicate. repeat split; reflexivity.
Qed.

Lemma Receive_track_layers_witness :
  ∃ enc0 rest t s0,
    Encodings encodings_qhf = enc0 :: rest ∧
    r_track (Receive (receiver_on transport_ok) encodings_qhf).1.1 = Some t ∧
    length (streams t) = length (Encodings encodings_qhf) ∧
    streams t = Some s0 :: replicate (length rest) None ∧
    rid s0 = enc_RID enc0 ∧
    ssrc s0 = enc_SSRC enc0 ∧
    id s0 = FormatUint10 (enc_SSRC enc0) ∧
    ready s0 = true ∧
    kind t = r_kind (receiver_on transport_ok) ∧
    multiStream t = bool_decide (1 < length (Encodings encodings_qhf))%nat.
Proof.
  apply (Receive_track_layers (receiver_on transport_ok) encodings_qhf
           (Receive (receiver_on transport_ok) encodings_qhf).1.1
           (Receive (receiver_on transport_ok) encodings_qhf).2).
  reflexivity.
Defined.

(** C3, as the specification has it, fails when the RTP read stream cannot
    be opened: [Receive] returns the transport's error and the latch is
    closed all the same, by the deferred [close(r.received)]. *)
Lemma Receive_latches_on_open_failure :
  (Receive (receiver_on transport_rtp_open_fails) encodings_single).1.2
    = Some (ErrExternal 1) ∧
  received (Receive (receiver_on transport_rtp_open_fails) encodings_single).1.1 = true ∧
  ¬ latch_only_on_success (receiver_on transport_rtp_open_fails) encodings_single.
Proof.
  split; [reflexivity|]. split; [reflexivity|].
  intros H. assert (Hn : (Receive (receiver_on transport_rtp_open_fails) encodings_single).1.2 ≠ None)
    by discriminate.
  specialize (H Hn). discriminate H.
Qed.

(** C3, amended: the latch is closed by every [Receive] that gets past its
    two guards, whether it then succeeds or a transport call fails; a call
    turned down by a guard (empty list, latch already closed) leaves the
    receiver as it was.  So after any call the latch is closed exactly if
    it was closed before or the list was not empty, and a successful call
    is one that found the latch open and closed it. *)
Theorem Receive_latch r p :
  (received (Receive r p).1.1 = true ↔ received r = true ∨ Encodings p ≠ []) ∧
  (Encodings p = [] ∨ received r = true → (Receive r p).1.1 = r) ∧
  ((Receive r p).1.2 = None → received r = false ∧ received (Receive r p).1.1 = true).
Proof.
  split; [apply Receive_received|]. split; [apply Receive_guarded|].
  intros H. split; [by apply (Receive_success_fresh r p)|].
  apply (proj2 (Receive_received r p)). right. intros Hnil.
  revert H. unfold Receive. rewrite Hnil. discriminate.
Qed.

(** C4: once a [Receive] with a non-empty list has returned, with whatever
    result, every later [Receive] with a non-empty list fails with "Receive
    has already been called" and changes nothing, whatever calls were made
    in between; and no later [Receive] at all succeeds. *)
Theorem Receive_at_most_once r p1 cs p2 :
  Encodings p1 ≠ [] →
  let r2 := run_calls (Receive r p1).1.1 cs in
  (Encodings p2 ≠ [] → Receive r2 p2 = (r2, Some ErrAlreadyReceiving, [])) ∧
  (Receive r2 p2).1.2 ≠ None.
Proof.
  intros Hne r2.
  assert (Hr2 : received r2 = true).
  { unfold r2. apply run_calls_received.
    apply (proj2 (Receive_received r p1)). by right. }
  split.
  - intros Hne2. by apply Receive_already.
  - by apply Receive_latched_fails.
Qed.

Lemma Receive_at_most_once_witness :
  Encodings encodings_qhf ≠ [] ∧
  let r2 := run_calls (Receive (receiver_on transport_ok) encodings_qhf).1.1
              [CallStop close_rtp_fails] in
  (Encodings encodings_single ≠ [] →
     Receive r2 encodings_single = (r2, Some ErrAlreadyReceiving, [])) ∧
  (Receive r2 encodings_single).1.2 ≠ None.
Proof.
  split; [discriminate|].
  apply (Receive_at_most_once (receiver_on transport_ok) encodings_qhf
           [CallStop close_rtp_fails] encodings_single).
  discriminate.
Defined.

(** C6: [Receive] with an empty list fails with "no encodings provided",
    calls nothing and returns the receiver it was given: state, track,
    streams and latch are those of before, so a receiver in [Created]
    stays in [Created]. *)
Theorem Receive_no_encodings r p :
  Encodings p = [] →
  Receive r p = (r, Some ErrNoEncodings, []) ∧
  (state_of r = Created →
     state_of (Receive r p).1.1 = Created ∧
     received (Receive r p).1.1 = false).
Proof.
  intros Hnil. unfold Receive. rewrite Hnil. split; [reflexivity|].
  cbn. unfold state_of. destruct (closed r), (received r); intros; try discriminate; done.
Qed.

Lemma Receive_no_encodings_witness :
  Encodings encodings_none = [] ∧
  Receive (receiver_on transport_ok) encodings_none
    = (receiver_on transport_ok, Some ErrNoEncodings, []) ∧
  (state_of (receiver_on transport_ok) = Created →
     state_of (Receive (receiver_on transport_ok) encodings_none).1.1 = Created ∧
     received (Receive (receiver_on transport_ok) encodings_none).1.1 = false).
Proof.
  split; [reflexivity|].
  apply (Receive_no_encodings (receiver_on transport_ok) encodings_none).
  reflexivity.
Defined.

(** ** Stop *)

Lemma Stop_success_closes r io : (Stop r io).1.2 = None → closed (Stop r io).1.1 = true.
Proof. stop_cases r io; cbn; congruence. Qed.

Lemma Stop_failure_inv r io e r' tr :
  Stop r io = (r', Some e, tr) →
  r' = r ∧ closed r = false ∧ received r = true ∧
  (is_Some (rtcpReadStream r) ∨ is_Some (rtpReadStream r)) ∧ tr ≠ [].
Proof.
  stop_cases r io; intros H; try discriminate H;
    injection H as <- <- <-; repeat split; eauto; discriminate.
Qed.

(** C8: after a [Stop] that returned success the receiver is [Stopped],
    and every later [Stop], whatever calls come in between, returns
    success, calls no [Close] and leaves the receiver as it finds it; two
    [Stop]s in a row end in the state, and with the trace, of the first. *)
Theorem Stop_idempotent r io1 :
  (Stop r io1).1.2 = None →
  let r1 := (Stop r io1).1.1 in
  state_of r1 = Stopped ∧
  (∀ io2, Stop r1 io2 = (r1, None, [])) ∧
  (∀ cs io2, Stop (run_calls r1 cs) io2 = (run_calls r1 cs, None, []) ∧
             state_of (run_calls r1 cs) = Stopped) ∧
  (∀ io2, (Stop r1 io2).1.1 = r1 ∧ (Stop r io1).2 ++ (Stop r1 io2).2 = (Stop r io1).2).
Proof.
  intros Hok r1.
  assert (Hc : closed r1 = true) by (by apply Stop_success_closes).
  split; [unfold state_of; by rewrite Hc|].
  split; [intros io2; by apply Stop_closed_mono|].
  split.
  - intros cs io2.
    assert (Hc' : closed (run_calls r1 cs) = true) by (by apply run_calls_closed).
    split; [by apply Stop_closed_mono|]. unfold state_of. by rewrite Hc'.
  - intros io2. rewrite (Stop_closed_mono r1 io2 Hc). cbn.
    split; [reflexivity|]. apply app_nil_r.
Qed.

Lemma Stop_idempotent_witness :
  (Stop (Receive (receiver_on transport_ok) encodings_qhf).1.1 close_ok).1.2 = None ∧
  let r1 := (Stop (Receive (receiver_on transport_ok) encodings_qhf).1.1 close_ok).1.1 in
  state_of r1 = Stopped ∧
  (∀ io2, Stop r1 io2 = (r1, None, [])) ∧
  (∀ cs io2, Stop (run_calls r1 cs) io2 = (run_calls r1 cs, None, []) ∧
             state_of (run_calls r1 cs) = Stopped) ∧
  (∀ io2, (Stop r1 io2).1.1 = r1 ∧
          (Stop (Receive (receiver_on transport_ok) encodings_qhf).1.1 close_ok).2
            ++ (Stop r1 io2).2
          = (Stop (Receive (receiver_on transport_ok) encodings_qhf).1.1 close_ok).2).
Proof.
  split; [reflexivity|].
  apply (Stop_idempotent (Receive (receiver_on transport_ok) encodings_qhf).1.1 close_ok).
  reflexivity.
Defined.

(** C10: a [Stop] that returns an error has not closed [closed]: the
    receiver is returned as it was, still [Receiving], and the next [Stop]
    is not the no-op of a stopped receiver but starts over with the same
    [Close] call the failed one started with, closing [closed] only if it
    gets through.  In general [closed] is closed after a [Stop] exactly if
    that [Stop] returned success. *)
Theorem Stop_failure_not_terminal r io e r' tr :
  Stop r io = (r', Some e, tr) →
  r' = r ∧ closed r' = false ∧ state_of r' = Receiving ∧ tr ≠ [] ∧
  ∀ io2,
    (Stop r' io2).2 ≠ [] ∧
    head (Stop r' io2).2 = head tr ∧
    (closed (Stop r' io2).1.1 = true ↔ (Stop r' io2).1.2 = None).
Proof.
  intros H. destruct (Stop_failure_inv r io e r' tr H) as (-> & Hc & Hr & Hs & Hne).
  split; [reflexivity|]. split; [assumption|].
  split; [unfold state_of; by rewrite Hc, Hr|]. split; [assumption|].
  intros io2. revert H. unfold Stop. rewrite Hc, Hr.
  destruct (rtcpReadStream r) as [s1|].
  - destruct (rtcp_Close io) as [e1|], (rtcp_Close io2) as [e1'|];
      destruct (rtpReadStream r) as [s2|];
      try destruct (rtp_Close io) as [e2|]; try destruct (rtp_Close io2) as [e2'|];
      intros H; try discriminate H; injection H as <- <-; cbn; rewrite ?Hc;
      repeat split; try discriminate; try reflexivity; intros; discriminate.
  - destruct Hs as [[? Hs]|[s2 Hs]]; [discriminate Hs|]. rewrite Hs.
    destruct (rtp_Close io) as [e2|], (rtp_Close io2) as [e2'|];
      intros H; try discriminate H; injection H as <- <-; cbn; rewrite ?Hc;
      repeat split; try discriminate; try reflexivity; intros; discriminate.
Qed.

Lemma Stop_failure_not_terminal_witness :
  let r := (Receive (receiver_on transport_ok) encodings_single).1.1 in
  Stop r close_rtp_fails
    = (r, Some (ErrExternal 2),
       [EvCloseSRTCP {| srtcp_stream_ssrc := 111 |}; EvCloseSRTP {| srtp_stream_ssrc := 111 |}]) ∧
  r = r ∧ closed r = false ∧ state_of r = Receiving ∧
  [EvCloseSRTCP {| srtcp_stream_ssrc := 111 |}; EvCloseSRTP {| srtp_stream_ssrc := 111 |}] ≠ [] ∧
  ∀ io2,
    (Stop r io2).2 ≠ [] ∧
    head (Stop r io2).2
      = head [EvCloseSRTCP {| srtcp_stream_ssrc := 111 |};
              EvCloseSRTP {| srtp_stream_ssrc := 111 |}] ∧
    (closed (Stop r io2).1.1 = true ↔ (Stop r io2).1.2 = None).
Proof.
  intros r. split; [reflexivity|].
  apply (Stop_failure_not_terminal r close_rtp_fails (ErrExternal 2) r
           [EvCloseSRTCP {| srtcp_stream_ssrc := 111 |};
            EvCloseSRTP {| srtp_stream_ssrc := 111 |}]).
  reflexivity.
Defined.

(** ** The forward loops *)

Section RunLoop.
Variable body : iteration → list event * option panic_value.

(** A loop that got through [pre] goes on with [post]; one that died in
    [pre] never sees [post]. *)
Lemma run_loop_app pre post :
  run_loop body (pre ++ post) =
    match (run_loop body pre).2 with
    | Running => ((run_loop body pre).1 ++ (run_loop body post).1, (run_loop body post).2)
    | Panicked v => ((run_loop body pre).1, Panicked v)
    end.
Proof.
  induction pre as [|it pre IH]; cbn.
  - by destruct (run_loop body post).
  - destruct (body it) as [tr [v|]]; [reflexivity|].
    rewrite IH. destruct (run_loop body pre) as [tr' [|v]]; cbn.
    + destruct (run_loop body post). cbn. by rewrite app_assoc.
    + reflexivity.
Qed.

(** Every event of a run is an event of one of its turns. *)
Lemma run_loop_event e script :
  e ∈ (run_loop body script).1 → ∃ it, it ∈ script ∧ e ∈ (body it).1.
Proof.
  induction script as [|it script IH]; cbn.
  - intros H. by apply not_elem_of_nil in H.
  - destruct (body it) as [tr [v|]] eqn:Hb; cbn.
    + intros H. exists it. split; [left|]. by rewrite Hb.
    + destruct (run_loop body script) as [tr' o]. cbn in *.
      intros [H|H]%elem_of_app.
      * exists it. split; [left|]. by rewrite Hb.
      * destruct (IH H) as (it' & Hin & He). exists it'. split; [by right|done].
Qed.

(** The turn reached after a prefix that left the loop running. *)
Lemma run_loop_reach pre it post :
  (run_loop body pre).2 = Running →
  run_loop body (pre ++ it :: post) =
    match (body it).2 with
    | Some v => ((run_loop body pre).1 ++ (body it).1, Panicked v)
    | None => ((run_loop body pre).1 ++ (body it).1 ++ (run_loop body post).1,
               (run_loop body post).2)
    end.
Proof.
  intros Hpre. rewrite run_loop_app, Hpre. cbn.
  destruct (body it) as [tr [v|]]; cbn; [reflexivity|].
  by destruct (run_loop body post).
Qed.
End RunLoop.

(** What [rewrite_and_write] writes, and to whom. *)
Lemma rewrite_and_write_event tracks rid0 packet werr out target p :
  tracks !! rid0 = Some out →
  EvWriteRTP target p ∈ (rewrite_and_write tracks rid0 packet werr).1 →
  target = out ∧ ∃ q, packet = Some q ∧ p = set_SSRC (out_SSRC out) q.
Proof.
  intros Hout. unfold rewrite_and_write. rewrite Hout.
  destruct packet as [q|]; cbn.
  - intros H%list_elem_of_singleton. injection H as -> ->. eauto.
  - intros H. by apply not_elem_of_nil in H.
Qed.

Lemma rewrite_and_write_mapped tracks rid0 q werr out :
  tracks !! rid0 = Some out →
  rewrite_and_write tracks rid0 (Some q) werr =
    ([EvWriteRTP out (set_SSRC (out_SSRC out) q)],
     match werr with
     | Some e => if decide (e = ErrClosedPipe) then None else Some (PanicError (Some e))
     | None => None
     end).
Proof. intros Hout. unfold rewrite_and_write. by rewrite Hout. Qed.

Lemma Echo_body_event tracks rid0 it out target p :
  tracks !! rid0 = Some out →
  EvWriteRTP target p ∈ (Echo.forward_body tracks rid0 it).1 →
  target = out ∧ ∃ q, read_packet it = Some q ∧ p = set_SSRC (out_SSRC out) q.
Proof.
  intros Hout. unfold Echo.forward_body. destruct (read_err it).
  - cbn. intros H%list_elem_of_singleton. discriminate H.
  - destruct (rewrite_and_write tracks rid0 (read_packet it) (write_err it)) as [tr v] eqn:Hrw.
    cbn. intros [H|H]%elem_of_cons; [discriminate H|].
    apply (rewrite_and_write_event tracks rid0 (read_packet it) (write_err it)); [done|].
    by rewrite Hrw.
Qed.

Lemma Simulcast_body_event tracks err rid0 it out target p :
  tracks !! rid0 = Some out →
  EvWriteRTP target p ∈ (Simulcast.forward_body tracks err rid0 it).1 →
  target = out ∧ ∃ q, read_packet it = Some q ∧ p = set_SSRC (out_SSRC out) q.
Proof.
  intros Hout. unfold Simulcast.forward_body. destruct err.
  - cbn. intros H%list_elem_of_singleton. discriminate H.
  - destruct (rewrite_and_write tracks rid0 (read_packet it) (write_err it)) as [tr v] eqn:Hrw.
    cbn. intros [H|H]%elem_of_cons; [discriminate H|].
    apply (rewrite_and_write_event tracks rid0 (read_packet it) (write_err it)); [done|].
    by rewrite Hrw.
Qed.

(** C1: whenever the stream's RID has an outbound track, every packet
    either forward loop writes goes to that track and is a packet the loop
    read with its SSRC field replaced by the outbound track's SSRC; what
    SSRC the packet came in with has no part in it. *)
Theorem forward_rewrites_ssrc tracks inStream out err script target p :
  tracks !! rid inStream = Some out →
  EvWriteRTP target p ∈ (Echo.forward_loop tracks inStream script).1 ∨
  EvWriteRTP target p ∈ (Simulcast.forward_loop tracks err inStream script).1 →
  target = out ∧
  SSRC p = out_SSRC out ∧
  ∃ it q, it ∈ script ∧ read_packet it = Some q ∧
          p = set_SSRC (out_SSRC out) q ∧
          (SSRC q ≠ out_SSRC out → SSRC p ≠ SSRC q) ∧
          ∀ s, set_SSRC (out_SSRC out) (set_SSRC s q) = p.
Proof.
  intros Hout H.
  assert (Hw : target = out ∧ ∃ it q, it ∈ script ∧ read_packet it = Some q ∧
                                      p = set_SSRC (out_SSRC out) q).
  { destruct H as [H|H]; apply run_loop_event in H as (it & Hin & He).
    - destruct (Echo_body_event _ _ _ _ _ _ Hout He) as (-> & q & Hq & ->). eauto 6.
    - destruct (Simulcast_body_event _ _ _ _ _ _ _ Hout He) as (-> & q & Hq & ->). eauto 6. }
  destruct Hw as (-> & it & q & Hin & Hq & ->).
  split; [reflexivity|]. split; [reflexivity|].
  exists it, q. split; [assumption|]. split; [assumption|].
  split; [reflexivity|]. split; [|reflexivity].
  cbn. intros Hne Heq. by apply Hne.
Qed.

Lemma forward_rewrites_ssrc_witness :
  tracks_qhf !! rid stream_q = Some out_q ∧
  out_q = out_q ∧
  SSRC (set_SSRC 7001 (packet_of 1 1001)) = out_SSRC out_q ∧
  ∃ it q, it ∈ [turn (Some (packet_of 1 1001)) None None] ∧ read_packet it = Some q ∧
          set_SSRC 7001 (packet_of 1 1001) = set_SSRC (out_SSRC out_q) q ∧
          (SSRC q ≠ out_SSRC out_q → SSRC (set_SSRC 7001 (packet_of 1 1001)) ≠ SSRC q) ∧
          ∀ s, set_SSRC (out_SSRC out_q) (set_SSRC s q) = set_SSRC 7001 (packet_of 1 1001).
Proof.
  split; [reflexivity|].
  apply (forward_rewrites_ssrc tracks_qhf stream_q out_q None
           [turn (Some (packet_of 1 1001)) None None] out_q
           (set_SSRC 7001 (packet_of 1 1001))).
  - reflexivity.
  - left. vm_compute. constructor. constructor.
Defined.

(** C5: at a turn either loop reaches with a packet in hand, a [WriteRTP]
    that fails with [io.ErrClosedPipe] costs nothing, the loop goes on
    with the turns that follow; a [WriteRTP] that fails with any other
    error is the last thing the loop does, and the loop dies of that
    error. *)
Theorem write_error_classification tracks inStream out pre q rerr werr post :
  tracks !! rid inStream = Some out →
  (Echo.forward_loop tracks inStream pre).2 = Running →
  (Simulcast.forward_loop tracks None inStream pre).2 = Running →
  let step := [EvReadRTP (rid inStream); EvWriteRTP out (set_SSRC (out_SSRC out) q)] in
  Echo.forward_loop tracks inStream (pre ++ turn (Some q) None (Some werr) :: post) =
    (if decide (werr = ErrClosedPipe)
     then ((Echo.forward_loop tracks inStream pre).1 ++ step
             ++ (Echo.forward_loop tracks inStream post).1,
           (Echo.forward_loop tracks inStream post).2)
     else ((Echo.forward_loop tracks inStream pre).1 ++ step,
           Panicked (PanicError (Some werr)))) ∧
  Simulcast.forward_loop tracks None inStream (pre ++ turn (Some q) rerr (Some werr) :: post) =
    (if decide (werr = ErrClosedPipe)
     then ((Simulcast.forward_loop tracks None inStream pre).1 ++ step
             ++ (Simulcast.forward_loop tracks None inStream post).1,
           (Simulcast.forward_loop tracks None inStream post).2)
     else ((Simulcast.forward_loop tracks None inStream pre).1 ++ step,
           Panicked (PanicError (Some werr)))).
Proof.
  intros Hout He Hs step. unfold Echo.forward_loop, Simulcast.forward_loop in *.
  rewrite (run_loop_reach _ pre _ post He), (run_loop_reach _ pre _ post Hs).
  unfold Echo.forward_body, Simulcast.forward_body. cbn [turn read_err read_packet write_err].
  rewrite (rewrite_and_write_mapped tracks (rid inStream) q (Some werr) out Hout).
  cbn. by destruct (decide (werr = ErrClosedPipe)).
Qed.

Lemma write_error_classification_witness :
  tracks_qhf !! rid stream_q = Some out_q ∧
  Echo.forward_loop tracks_qhf stream_q
    ([turn (Some (packet_of 1 1001)) None None]
       ++ turn (Some (packet_of 2 1001)) None (Some ErrClosedPipe)
       :: [turn (Some (packet_of 3 1001)) None (Some (ErrExternal 9));
           turn (Some (packet_of 4 1001)) None None])
  = ([EvReadRTP "q"; EvWriteRTP out_q (packet_of 1 7001);
      EvReadRTP "q"; EvWriteRTP out_q (packet_of 2 7001);
      EvReadRTP "q"; EvWriteRTP out_q (packet_of 3 7001)],
     Panicked (PanicError (Some (ErrExternal 9)))) ∧
  Simulcast.forward_loop tracks_qhf None stream_q
    ([turn (Some (packet_of 1 1001)) None None]
       ++ turn (Some (packet_of 2 1001)) None (Some ErrClosedPipe)
       :: [turn (Some (packet_of 3 1001)) None (Some (ErrExternal 9));
           turn (Some (packet_of 4 1001)) None None])
  = ([EvReadRTP "q"; EvWriteRTP out_q (packet_of 1 7001);
      EvReadRTP "q"; EvWriteRTP out_q (packet_of 2 7001);
      EvReadRTP "q"; EvWriteRTP out_q (packet_of 3 7001)],
     Panicked (PanicError (Some (ErrExternal 9)))).
Proof.
  split; [reflexivity|].
  pose proof (write_error_classification tracks_qhf stream_q out_q
                [turn (Some (packet_of 1 1001)) None None]
                (packet_of 2 1001) None ErrClosedPipe
                [turn (Some (packet_of 3 1001)) None (Some (ErrExternal 9));
                 turn (Some (packet_of 4 1001)) None None]
                eq_refl eq_refl eq_refl) as [He Hs].
  split; [rewrite He | rewrite Hs]; reflexivity.
Defined.

(** Each turn of either loop reads once and writes at most once. *)
Lemma rewrite_and_write_counts tracks rid0 packet werr :
  rtp_reads (rewrite_and_write tracks rid0 packet werr).1 = [] ∧
  (length (rtp_writes (rewrite_and_write tracks rid0 packet werr).1) ≤ 1)%nat.
Proof.
  unfold rewrite_and_write. destruct (tracks !! rid0), packet; cbn; split; auto.
Qed.

Lemma Echo_loop_counts tracks rid0 script :
  (length (rtp_reads (run_loop (Echo.forward_body tracks rid0) script).1) ≤ length script)%nat ∧
  (length (rtp_writes (run_loop (Echo.forward_body tracks rid0) script).1) ≤ length script)%nat.
Proof.
  induction script as [|it script [IHr IHw]]; cbn; [auto|].
  unfold Echo.forward_body at 1 3.
  destruct (read_err it); cbn; [split; lia|].
  pose proof (rewrite_and_write_counts tracks rid0 (read_packet it) (write_err it)) as [Hr Hw].
  destruct (rewrite_and_write tracks rid0 (read_packet it) (write_err it)) as [tr [v|]];
    cbn in *.
  - rewrite Hr. cbn. split; lia.
  - destruct (run_loop (Echo.forward_body tracks rid0) script) as [tr' o]. cbn in *.
    unfold rtp_reads, rtp_writes in *. rewrite !omap_app, !length_app, Hr. cbn. split; lia.
Qed.

(** The single-stream loop does what C7 asks: the turn whose read fails is
    its last, and nothing is written for it. *)
Lemma Echo_read_error_is_fatal tracks inStream script :
  read_error_is_fatal script (Echo.forward_loop tracks inStream script).
Proof.
  intros pre it post -> [e He] _. unfold Echo.forward_loop.
  pose proof (Echo_loop_counts tracks (rid inStream) pre) as [Hr Hw].
  assert (Hit : Echo.forward_body tracks (rid inStream) it
                = ([EvReadRTP (rid inStream)], Some (PanicError (Some e)))).
  { unfold Echo.forward_body. by rewrite He. }
  destruct (run_loop (Echo.forward_body tracks (rid inStream)) pre).2 as [|v] eqn:Hpre.
  - rewrite (run_loop_reach _ pre it post Hpre), Hit. cbn [fst snd].
    unfold rtp_reads, rtp_writes in *. rewrite !omap_app, !length_app. cbn.
    repeat split; [discriminate|lia|lia].
  - rewrite run_loop_app, Hpre. cbn [fst snd]. repeat split; [discriminate|lia|lia].
Qed.

(** C7 at the simulcast loop.  With [main]'s [err] nil, as it is once the
    handler runs, a read that returns a packet together with an error is
    not noticed: the packet is forwarded and the loop reads on.  A read
    that returns the error with a nil packet does stop the loop, though by
    the nil dereference at [packet.SSRC] and not by [panic(readErr)]. *)
Theorem Simulcast_read_error_unchecked :
  Simulcast.forward_loop tracks_qhf None stream_q
    [turn (Some (packet_of 1 1001)) (Some (ErrExternal 7)) None;
     turn (Some (packet_of 2 1001)) None None]
  = ([EvReadRTP "q"; EvWriteRTP out_q (packet_of 1 7001);
      EvReadRTP "q"; EvWriteRTP out_q (packet_of 2 7001)], Running) ∧
  ¬ read_error_is_fatal
      [turn (Some (packet_of 1 1001)) (Some (ErrExternal 7)) None;
       turn (Some (packet_of 2 1001)) None None]
      (Simulcast.forward_loop tracks_qhf None stream_q
         [turn (Some (packet_of 1 1001)) (Some (ErrExternal 7)) None;
          turn (Some (packet_of 2 1001)) None None]) ∧
  Simulcast.forward_loop tracks_qhf None stream_q
    [turn None (Some (ErrExternal 7)) None; turn (Some (packet_of 2 1001)) None None]
  = ([EvReadRTP "q"], Panicked PanicNilDereference) ∧
  Echo.forward_loop tracks_qhf stream_q
    [turn (Some (packet_of 1 1001)) (Some (ErrExternal 7)) None;
     turn (Some (packet_of 2 1001)) None None]
  = ([EvReadRTP "q"], Panicked (PanicError (Some (ErrExternal 7)))).
Proof.
  split; [reflexivity|]. split; [|split; reflexivity].
  intros H.
  destruct (H [] (turn (Some (packet_of 1 1001)) (Some (ErrExternal 7)) None)
              [turn (Some (packet_of 2 1001)) None None] eq_refl) as [Hrun _].
  - by eexists.
  - constructor.
  - by apply Hrun.
Qed.

(** ** The feedback tickers *)

Lemma rtcp_sent_app tr1 tr2 : rtcp_sent (tr1 ++ tr2) = rtcp_sent tr1 ++ rtcp_sent tr2.
Proof. apply omap_app. Qed.

Lemma rtcp_sent_println (o : option error) :
  rtcp_sent (from_option (λ e, [EvPrintln e]) [] o) = [].
Proof. by destruct o. Qed.

Lemma Echo_tick_sent inStream w :
  rtcp_sent (Echo.feedback_tick inStream w) =
    [[PictureLossIndication 0 (ssrc inStream)];
     [ReceiverEstimatedMaximumBitrate (ssrc inStream) 10000000 []]].
Proof.
  unfold Echo.feedback_tick. rewrite !rtcp_sent_app, !rtcp_sent_println. reflexivity.
Qed.

Lemma Simulcast_tick_sent inStream w :
  rtcp_sent (Simulcast.feedback_tick inStream w) =
    [[PictureLossIndication 0 (ssrc inStream)];
     [ReceiverEstimatedMaximumBitrate (ssrc inStream) 10000000 []]].
Proof.
  unfold Simulcast.feedback_tick. rewrite !rtcp_sent_app, !rtcp_sent_println. reflexivity.
Qed.

Lemma Echo_loop_sent inStream ticks :
  rtcp_sent (Echo.feedback_loop inStream ticks) =
    ticks ≫= (λ _, [[PictureLossIndication 0 (ssrc inStream)];
                    [ReceiverEstimatedMaximumBitrate (ssrc inStream) 10000000 []]]).
Proof.
  unfold Echo.feedback_loop. induction ticks as [|w ticks IH]; [reflexivity|].
  rewrite fmap_cons. cbn [concat].
  rewrite rtcp_sent_app, Echo_tick_sent, IH. reflexivity.
Qed.

Lemma Simulcast_loop_sent inStream ticks :
  rtcp_sent (Simulcast.feedback_loop inStream ticks) =
    ticks ≫= (λ _, [[PictureLossIndication 0 (ssrc inStream)];
                    [ReceiverEstimatedMaximumBitrate (ssrc inStream) 10000000 []]]).
Proof.
  unfold Simulcast.feedback_loop. induction ticks as [|w ticks IH]; [reflexivity|].
  rewrite fmap_cons. cbn [concat].
  rewrite rtcp_sent_app, Simulcast_tick_sent, IH. reflexivity.
Qed.

(** C9: in both tickers each tick sends exactly two RTCP packets, first a
    PictureLossIndication whose MediaSSRC is the stream's SSRC, then a
    ReceiverEstimatedMaximumBitrate whose SenderSSRC is the stream's SSRC,
    whether or not either send fails; so over any number of ticks the
    sends alternate PLI, REMB, the [n]-th tick's being the sends [2n] and
    [2n+1]. *)
Theorem feedback_pli_before_remb inStream ticks :
  let pli := [PictureLossIndication 0 (ssrc inStream)] in
  let remb := [ReceiverEstimatedMaximumBitrate (ssrc inStream) 10000000 []] in
  (∀ w, rtcp_sent (Echo.feedback_tick inStream w) = [pli; remb] ∧
        rtcp_sent (Simulcast.feedback_tick inStream w) = [pli; remb]) ∧
  rtcp_sent (Echo.feedback_loop inStream ticks) = ticks ≫= (λ _, [pli; remb]) ∧
  rtcp_sent (Simulcast.feedback_loop inStream ticks) = ticks ≫= (λ _, [pli; remb]) ∧
  ∀ n, (n < length ticks)%nat →
       rtcp_sent (Echo.feedback_loop inStream ticks) !! (2 * n)%nat = Some pli ∧
       rtcp_sent (Echo.feedback_loop inStream ticks) !! (2 * n + 1)%nat = Some remb ∧
       rtcp_sent (Simulcast.feedback_loop inStream ticks) !! (2 * n)%nat = Some pli ∧
       rtcp_sent (Simulcast.feedback_loop inStream ticks) !! (2 * n + 1)%nat = Some remb.
Proof.
  intros pli remb.
  pose proof (Echo_loop_sent inStream ticks) as He.
  pose proof (Simulcast_loop_sent inStream ticks) as Hs.
  fold pli remb in He, Hs.
  split; [intros w; split; [apply Echo_tick_sent|apply Simulcast_tick_sent]|].
  split; [exact He|]. split; [exact Hs|].
  rewrite He, Hs. clear He Hs.
  assert (Hn : ∀ n, (n < length ticks)%nat →
            (ticks ≫= (λ _, [pli; remb])) !! (2 * n)%nat = Some pli ∧
            (ticks ≫= (λ _, [pli; remb])) !! (2 * n + 1)%nat = Some remb).
  { induction ticks as [|w ticks IH]; intros n Hn; cbn in Hn; [lia|].
    destruct n as [|n]; [split; reflexivity|].
    replace (2 * S n)%nat with (S (S (2 * n))) by lia.
    replace (S (S (2 * n)) + 1)%nat with (S (S (2 * n + 1))) by lia.
    cbn. apply IH. lia. }
  intros n Hlt. destruct (Hn n Hlt). auto.
Qed.

(** * Further properties *)

(** ** The receiver's lifecycle *)

(** A receiver made by [NewRTPReceiver] goes from [Created] through
    [Receiving] to [Stopped] when the transport opens both streams and both
    closes work: [Receive] gets the SRTP session, opens the RTP stream,
    gets the SRTCP session and opens the control stream, each for the first
    encoding's SSRC; [Stop] closes the control stream and then the RTP
    stream. *)
Theorem lifecycle_happy_path k t p enc0 rest srtp srtcp s1 s2 io :
  Encodings p = enc0 :: rest →
  getSRTPSession t = (srtp, None) →
  srtp (enc_SSRC enc0) = (Some s1, None) →
  getSRTCPSession t = (srtcp, None) →
  srtcp (enc_SSRC enc0) = (Some s2, None) →
  rtcp_Close io = None →
  rtp_Close io = None →
  ∃ r0 r1 r2,
    NewRTPReceiver k (Some t) = (Some r0, None) ∧
    state_of r0 = Created ∧
    Receive r0 p = (r1, None,
                    [EvGetSRTPSession; EvOpenReadStreamSRTP (enc_SSRC enc0);
                     EvGetSRTCPSession; EvOpenReadStreamSRTCP (enc_SSRC enc0)]) ∧
    state_of r1 = Receiving ∧
    Stop r1 io = (r2, None, [EvCloseSRTCP s2; EvCloseSRTP s1]) ∧
    state_of r2 = Stopped.
Proof.
  intros Hp H1 H2 H3 H4 Hc1 Hc2. eexists _, _, _.
  split; [reflexivity|]. split; [reflexivity|].
  unfold Receive. rewrite Hp. cbn. rewrite H1, H2. cbn. rewrite H3, H4. cbn.
  split; [reflexivity|]. split; [reflexivity|].
  unfold Stop. cbn. rewrite Hc1, Hc2. cbn. split; reflexivity.
Qed.

Lemma lifecycle_happy_path_witness :
  ∃ r0 r1 r2,
    NewRTPReceiver RTPCodecTypeVideo (Some transport_ok) = (Some r0, None) ∧
    state_of r0 = Created ∧
    Receive r0 encodings_qhf
      = (r1, None, [EvGetSRTPSession; EvOpenReadStreamSRTP 1001;
                    EvGetSRTCPSession; EvOpenReadStreamSRTCP 1001]) ∧
    state_of r1 = Receiving ∧
    Stop r1 close_ok
      = (r2, None, [EvCloseSRTCP {| srtcp_stream_ssrc := 1001 |};
                    EvCloseSRTP {| srtp_stream_ssrc := 1001 |}]) ∧
    state_of r2 = Stopped.
Proof.
  apply (lifecycle_happy_path RTPCodecTypeVideo transport_ok encodings_qhf
           {| enc_RID := "q"; enc_SSRC := 1001 |}
           [ {| enc_RID := "h"; enc_SSRC := 1002 |}; {| enc_RID := "f"; enc_SSRC := 1003 |} ]
           (λ s, (Some {| srtp_stream_ssrc := s |}, None))
           (λ s, (Some {| srtcp_stream_ssrc := s |}, None))
           {| srtp_stream_ssrc := 1001 |} {| srtcp_stream_ssrc := 1001 |} close_ok);
    reflexivity.
Defined.

Lemma Receive_kind_transport r p :
  r_kind (Receive r p).1.1 = r_kind r ∧ r_transport (Receive r p).1.1 = r_transport r.
Proof. receive_cases r p; cbn; auto. Qed.

Lemma Stop_kind_transport r io :
  r_kind (Stop r io).1.1 = r_kind r ∧ r_transport (Stop r io).1.1 = r_transport r.
Proof. stop_cases r io; cbn; auto. Qed.

Lemma do_call_rank r c :
  (lifecycle_rank (state_of r) ≤ lifecycle_rank (state_of (do_call r c).1.1))%nat.
Proof.
  unfold state_of.
  destruct (closed r) eqn:Hc.
  - by rewrite (do_call_closed r c Hc).
  - destruct (received r) eqn:Hr.
    + rewrite (do_call_received r c Hr).
      destruct (closed (do_call r c).1.1); cbn; lia.
    + destruct (closed (do_call r c).1.1), (received (do_call r c).1.1); cbn; lia.
Qed.

(** The lifecycle only moves forward: whatever [Receive] and [Stop] calls
    are made, the state never goes back in the order Created, Receiving,
    Stopped, a stopped receiver stays stopped, and kind and transport are
    those the receiver was made with. *)
Theorem lifecycle_monotone r cs :
  (lifecycle_rank (state_of r) ≤ lifecycle_rank (state_of (run_calls r cs)))%nat ∧
  (state_of r = Stopped → state_of (run_calls r cs) = Stopped) ∧
  r_kind (run_calls r cs) = r_kind r ∧
  Transport (run_calls r cs) = Transport r.
Proof.
  revert r. induction cs as [|c cs IH]; intros r; [by cbn|].
  change (run_calls r (c :: cs)) with (run_calls (do_call r c).1.1 cs).
  destruct (IH (do_call r c).1.1) as (IH1 & IH2 & IH3 & IH4).
  pose proof (do_call_rank r c) as Hle.
  split; [lia|]. split.
  - intros Hs. apply IH2. rewrite Hs in Hle.
    destruct (state_of (do_call r c).1.1); cbn in Hle; try lia; reflexivity.
  - rewrite IH3, IH4. unfold Transport.
    destruct c; cbn; [apply Receive_kind_transport | apply Stop_kind_transport].
Qed.

Lemma do_call_inv r c : receiver_inv r → receiver_inv (do_call r c).1.1.
Proof.
  intros Hinv. destruct c as [p|io]; cbn.
  - receive_cases r p; cbn [fst]; try exact Hinv;
      (split; [intros Hr; discriminate Hr|]);
      intros t Ht'; cbn in Ht'; injection Ht' as <-;
      unfold new_track; rewrite Hencs; cbn; rewrite ?length_replicate;
      (split; [reflexivity|]); (split; [by eexists _, _|]);
      apply bool_decide_ext; lia.
  - stop_cases r io; cbn [fst]; try exact Hinv;
      destruct Hinv as [Hopen Htrack]; split; try exact Htrack;
      cbn; intros Hr; apply Hopen; congruence.
Qed.

(** Every receiver reached from [NewRTPReceiver] by [Receive] and [Stop]
    calls satisfies [receiver_inv]: no track and no stream while the latch
    is open; a track of the receiver's kind whose slot 0 holds a layer and
    whose other slots are nil; [multiStream] set exactly if there is more
    than one slot. *)
Theorem receiver_inv_reachable k t r0 cs :
  NewRTPReceiver k (Some t) = (Some r0, None) →
  receiver_inv (run_calls r0 cs) ∧
  r_kind (run_calls r0 cs) = k ∧
  Transport (run_calls r0 cs) = t.
Proof.
  intros H. injection H as <-.
  destruct (lifecycle_monotone
              {| r_kind := k; r_transport := t; r_track := None; closed := false;
                 received := false; rtpReadStream := None; rtcpReadStream := None |} cs)
    as (_ & _ & Hk & Ht).
  split; [|by split].
  clear Hk Ht.
  assert (Hinv : receiver_inv
            {| r_kind := k; r_transport := t; r_track := None; closed := false;
               received := false; rtpReadStream := None; rtcpReadStream := None |}).
  { split; [by intros _|]. intros t0 Ht0. discriminate Ht0. }
  revert Hinv. generalize
    {| r_kind := k; r_transport := t; r_track := None; closed := false;
       received := false; rtpReadStream := None; rtcpReadStream := None |}.
  induction cs as [|c cs IH]; intros r Hinv; [exact Hinv|].
  change (run_calls r (c :: cs)) with (run_calls (do_call r c).1.1 cs).
  apply IH. by apply do_call_inv.
Qed.

Lemma receiver_inv_reachable_witness :
  NewRTPReceiver RTPCodecTypeVideo (Some transport_ok)
    = (Some (receiver_on transport_ok), None) ∧
  receiver_inv (run_calls (receiver_on transport_ok)
                  [CallStop close_ok; CallReceive encodings_qhf; CallStop close_rtp_fails]) ∧
  r_kind (run_calls (receiver_on transport_ok)
            [CallStop close_ok; CallReceive encodings_qhf; CallStop close_rtp_fails])
    = RTPCodecTypeVideo ∧
  Transport (run_calls (receiver_on transport_ok)
               [CallStop close_ok; CallReceive encodings_qhf; CallStop close_rtp_fails])
    = transport_ok.
Proof.
  split; [reflexivity|].
  apply (receiver_inv_reachable RTPCodecTypeVideo transport_ok (receiver_on transport_ok)
           [CallStop close_ok; CallReceive encodings_qhf; CallStop close_rtp_fails]).
  reflexivity.
Defined.

(** ** What Receive reads and what it leaves behind *)

(** Of the encoding list [Receive] uses the first entry and the length:
    two lists with the same head and as many entries give the same
    receiver, the same result and the same calls, whatever RIDs and SSRCs
    the later entries carry. *)
Theorem Receive_reads_first_encoding_only r enc0 rest rest' :
  length rest = length rest' →
  Receive r {| Encodings := enc0 :: rest |} = Receive r {| Encodings := enc0 :: rest' |}.
Proof.
  intros Hlen. unfold Receive, new_track, Receive_loop. cbn. by rewrite Hlen.
Qed.

Lemma Receive_reads_first_encoding_only_witness :
  Receive (receiver_on transport_ok) encodings_qhf
  = Receive (receiver_on transport_ok)
      {| Encodings := [ {| enc_RID := "q"; enc_SSRC := 1001 |};
                        {| enc_RID := "x"; enc_SSRC := 5 |};
                        {| enc_RID := "y"; enc_SSRC := 6 |} ] |}.
Proof.
  apply (Receive_reads_first_encoding_only (receiver_on transport_ok)
           {| enc_RID := "q"; enc_SSRC := 1001 |}
           [ {| enc_RID := "h"; enc_SSRC := 1002 |}; {| enc_RID := "f"; enc_SSRC := 1003 |} ]
           [ {| enc_RID := "x"; enc_SSRC := 5 |}; {| enc_RID := "y"; enc_SSRC := 6 |} ]).
  reflexivity.
Defined.

(** A [Receive] that gets past its guards always leaves a track behind,
    also when it fails; the layer in slot 0 is marked ready exactly if the
    call returned success. *)
Theorem Receive_ready_iff_success r p :
  Encodings p ≠ [] →
  received r = false →
  ∃ t s0,
    Track_of (Receive r p).1.1 = Some t ∧
    streams t !! 0%nat = Some (Some s0) ∧
    (ready s0 = true ↔ (Receive r p).1.2 = None).
Proof.
  intros Hne Hopen. receive_cases r p; try congruence;
    unfold Track_of, new_track; rewrite Hencs; cbn;
    eexists _, _; (split; [reflexivity|]); (split; [reflexivity|]);
    cbn; split; congruence.
Qed.

Lemma Receive_ready_iff_success_witness :
  Encodings encodings_single ≠ [] ∧
  received (receiver_on transport_rtp_open_fails) = false ∧
  ∃ t s0,
    Track_of (Receive (receiver_on transport_rtp_open_fails) encodings_single).1.1 = Some t ∧
    streams t !! 0%nat = Some (Some s0) ∧
    (ready s0 = true ↔
     (Receive (receiver_on transport_rtp_open_fails) encodings_single).1.2 = None).
Proof.
  split; [discriminate|]. split; [reflexivity|].
  apply (Receive_ready_iff_success (receiver_on transport_rtp_open_fails) encodings_single).
  - discriminate.
  - reflexivity.
Defined.

(** When the SRTCP session is not to be had after the RTP read stream was
    opened, [Receive] returns that error and keeps the RTP stream in the
    receiver without closing it; the control stream stays nil.  A [Stop]
    that follows closes the RTP stream and nothing else. *)
Theorem Receive_srtcp_failure_keeps_rtp_stream r p enc0 rest srtp s1 srtcp e io :
  Encodings p = enc0 :: rest →
  received r = false →
  closed r = false →
  rtcpReadStream r = None →
  getSRTPSession (r_transport r) = (srtp, None) →
  srtp (enc_SSRC enc0) = (Some s1, None) →
  getSRTCPSession (r_transport r) = (srtcp, Some e) →
  (Receive r p).1.2 = Some e ∧
  (Receive r p).2 = [EvGetSRTPSession; EvOpenReadStreamSRTP (enc_SSRC enc0);
                     EvGetSRTCPSession] ∧
  rtpReadStream (Receive r p).1.1 = Some s1 ∧
  rtcpReadStream (Receive r p).1.1 = None ∧
  (Stop (Receive r p).1.1 io).2 = [EvCloseSRTP s1].
Proof.
  intros Hp Hr Hc Hn H1 H2 H3.
  unfold Receive. rewrite Hp, Hr. cbn. rewrite H1, H2. cbn. rewrite H3. cbn.
  repeat split; try assumption.
  unfold Stop. cbn. rewrite Hc, Hn. by destruct (rtp_Close io).
Qed.

Lemma Receive_srtcp_failure_keeps_rtp_stream_witness :
  (Receive (receiver_on transport_srtcp_fails) encodings_single).1.2 = Some (ErrExternal 3) ∧
  (Receive (receiver_on transport_srtcp_fails) encodings_single).2
    = [EvGetSRTPSession; EvOpenReadStreamSRTP 111; EvGetSRTCPSession] ∧
  rtpReadStream (Receive (receiver_on transport_srtcp_fails) encodings_single).1.1
    = Some {| srtp_stream_ssrc := 111 |} ∧
  rtcpReadStream (Receive (receiver_on transport_srtcp_fails) encodings_single).1.1 = None ∧
  (Stop (Receive (receiver_on transport_srtcp_fails) encodings_single).1.1 close_ok).2
    = [EvCloseSRTP {| srtp_stream_ssrc := 111 |}].
Proof.
  apply (Receive_srtcp_failure_keeps_rtp_stream (receiver_on transport_srtcp_fails)
           encodings_single {| enc_RID := ""; enc_SSRC := 111 |} []
           (λ s, (Some {| srtp_stream_ssrc := s |}, None)) {| srtp_stream_ssrc := 111 |}
           (λ _, (None, None)) (ErrExternal 3) close_ok); reflexivity.
Defined.

(** The layer's id is its SSRC in decimal: it reads back as the SSRC, and
    layers with different SSRCs have different ids. *)
Theorem stream_id_roundtrip r p r' tr :
  Receive r p = (r', None, tr) →
  ∃ t s0,
    r_track r' = Some t ∧ streams t !! 0%nat = Some (Some s0) ∧
    ParseUint10 (id s0) = Some (ssrc s0) ∧
    ∀ n, id s0 = FormatUint10 n → n = ssrc s0.
Proof.
  intros H. destruct (Receive_track_layers r p r' tr H)
    as (enc0 & rest & t & s0 & _ & Ht & _ & Hs & _ & Hssrc & Hid & _).
  exists t, s0. split; [assumption|]. rewrite Hs. split; [reflexivity|].
  rewrite Hid, Hssrc.
  assert (Hrt : ∀ n, ParseUint10 (FormatUint10 n) = Some n).
  { intros n. unfold ParseUint10, FormatUint10.
    rewrite NilZero.usu.
    - cbn. by rewrite DecimalN.Unsigned.of_to.
    - destruct n; [discriminate|]. apply DecimalPos.Unsigned.to_uint_nonnil. }
  split; [apply Hrt|].
  intros n Hn. apply (f_equal ParseUint10) in Hn. rewrite !Hrt in Hn. congruence.
Qed.

Lemma stream_id_roundtrip_witness :
  ∃ t s0,
    r_track (Receive (receiver_on transport_ok) encodings_qhf).1.1 = Some t ∧
    streams t !! 0%nat = Some (Some s0) ∧
    ParseUint10 (id s0) = Some (ssrc s0) ∧
    ∀ n, id s0 = FormatUint10 n → n = ssrc s0.
Proof.
  apply (stream_id_roundtrip (receiver_on transport_ok) encodings_qhf
           (Receive (receiver_on transport_ok) encodings_qhf).1.1
           (Receive (receiver_on transport_ok) encodings_qhf).2).
  reflexivity.
Defined.

(** ** Stop *)

(** Goes through the events a short trace can hold. *)
Ltac trace_cases H :=
  repeat (apply elem_of_cons in H as [H|H]);
  try (by apply not_elem_of_nil in H); try discriminate H; try (injection H as <-).


(** [Receive] does not look at [closed].  On a receiver that was stopped
    before it ever received, a [Receive] that succeeds opens both streams
    all the same, and no later call closes them: after a [Stop] that
    returned success no call on the receiver ever calls [Close]. *)
Theorem Receive_after_Stop_never_closed r p :
  closed r = true →
  (Receive r p).1.2 = None →
  state_of (Receive r p).1.1 = Stopped ∧
  (∃ s, (Receive r p).2 = [EvGetSRTPSession; EvOpenReadStreamSRTP s;
                           EvGetSRTCPSession; EvOpenReadStreamSRTCP s]) ∧
  ∀ cs ev, ev ∈ calls_trace (Receive r p).1.1 cs →
           (∀ s, ev ≠ EvCloseSRTCP s) ∧ (∀ s, ev ≠ EvCloseSRTP s).
Proof.
  intros Hc Hok.
  assert (Hc' : closed (Receive r p).1.1 = true) by (by rewrite Receive_closed).
  split; [unfold state_of; by rewrite Hc'|]. split.
  - revert Hok. receive_cases r p; cbn; intros H; try discriminate H. by eexists.
  - generalize dependent (Receive r p).1.1. clear. intros r' Hc' cs.
    revert r' Hc'. induction cs as [|c cs IH]; intros r' Hc' ev Hin; cbn in Hin.
    + by apply not_elem_of_nil in Hin.
    + apply elem_of_app in Hin as [Hin|Hin].
      * destruct c as [p|io]; cbn in Hin.
        -- revert Hin. receive_cases r' p; cbn; intros Hin;
             repeat (apply elem_of_cons in Hin as [Hin|Hin]);
             try (by apply not_elem_of_nil in Hin); subst ev; split; intros; discriminate.
        -- rewrite (Stop_closed_mono r' io Hc') in Hin. by apply not_elem_of_nil in Hin.
      * apply (IH (do_call r' c).1.1); [by apply do_call_closed|assumption].
Qed.

Lemma Receive_after_Stop_never_closed_witness :
  let r := (Stop (receiver_on transport_ok) close_ok).1.1 in
  closed r = true ∧
  (Receive r encodings_qhf).1.2 = None ∧
  state_of (Receive r encodings_qhf).1.1 = Stopped ∧
  (∃ s, (Receive r encodings_qhf).2 = [EvGetSRTPSession; EvOpenReadStreamSRTP s;
                                       EvGetSRTCPSession; EvOpenReadStreamSRTCP s]) ∧
  ∀ cs ev, ev ∈ calls_trace (Receive r encodings_qhf).1.1 cs →
           (∀ s, ev ≠ EvCloseSRTCP s) ∧ (∀ s, ev ≠ EvCloseSRTP s).
Proof.
  intros r. split; [reflexivity|]. split; [reflexivity|].
  apply (Receive_after_Stop_never_closed r encodings_qhf); reflexivity.
Defined.

(** ** The blocking reads *)

Lemma Read_blocked_iff r b rd : Read r b rd = ReadBlocked ↔ received r = false.
Proof.
  unfold Read. destruct (received r); [|done].
  destruct (rtcpReadStream r) as [s|]; [destruct (rd s b) as [[b' n] err]|];
    split; intros H; discriminate H.
Qed.

Lemma readRTP_blocked_iff r b rd : readRTP r b rd = ReadBlocked ↔ received r = false.
Proof.
  unfold readRTP. destruct (received r); [|done].
  destruct (rtpReadStream r) as [s|]; [destruct (rd s b) as [[b' n] err]|];
    split; intros H; discriminate H.
Qed.

Lemma ReadRTCP_blocked_iff {P} mtu (U : list N → option (list P) * option error) r rd :
  ReadRTCP mtu U r rd = RTCPBlocked ↔ received r = false.
Proof.
  unfold ReadRTCP. rewrite <- (Read_blocked_iff r (replicate mtu 0%N) rd).
  destruct (Read r (replicate mtu 0%N) rd) as [| |s b' n [e|]]; try done.
  destruct (bool_decide _); [destruct (U _)|]; done.
Qed.

(** [Read], [ReadRTCP] and [readRTP] wait exactly as long as the latch is
    open.  A [Stop] or a [Receive] with an empty list does not release
    them; a [Receive] with a non-empty list does, whatever it returns, and
    nothing done to the receiver later makes them wait again. *)
Theorem reads_wait_for_latch {P} mtu (U : list N → option (list P) * option error)
    r b rd1 rd2 :
  (Read r b rd1 = ReadBlocked ↔ received r = false) ∧
  (ReadRTCP mtu U r rd1 = RTCPBlocked ↔ received r = false) ∧
  (readRTP r b rd2 = ReadBlocked ↔ received r = false) ∧
  (∀ io, Read (Stop r io).1.1 b rd1 = ReadBlocked ↔ Read r b rd1 = ReadBlocked) ∧
  (∀ p, Encodings p = [] →
        Read (Receive r p).1.1 b rd1 = Read r b rd1 ∧
        readRTP (Receive r p).1.1 b rd2 = readRTP r b rd2) ∧
  (∀ p cs, Encodings p ≠ [] →
           Read (run_calls (Receive r p).1.1 cs) b rd1 ≠ ReadBlocked ∧
           ReadRTCP mtu U (run_calls (Receive r p).1.1 cs) rd1 ≠ RTCPBlocked ∧
           readRTP (run_calls (Receive r p).1.1 cs) b rd2 ≠ ReadBlocked).
Proof.
  split; [apply Read_blocked_iff|]. split; [apply ReadRTCP_blocked_iff|].
  split; [apply readRTP_blocked_iff|]. split; [|split].
  - intros io. by rewrite !Read_blocked_iff, Stop_received.
  - intros p Hnil. by rewrite (Receive_guarded r p (or_introl Hnil)).
  - intros p cs Hne.
    assert (Hr : received (run_calls (Receive r p).1.1 cs) = true).
    { apply run_calls_received. apply (proj2 (Receive_received r p)). by right. }
    rewrite Read_blocked_iff, ReadRTCP_blocked_iff, readRTP_blocked_iff, Hr.
    repeat split; discriminate.
Qed.

(** After a successful [Receive] both reads go to the streams the two
    sessions gave for the SSRC of the first encoding, however many
    encodings there are; a session that gave a nil stream without an error
    leaves the read on a nil stream. *)
Theorem reads_after_Receive r p r' tr enc0 rest b rd1 rd2 :
  Receive r p = (r', None, tr) →
  Encodings p = enc0 :: rest →
  ∃ srtp srtcp,
    getSRTPSession (Transport r) = (srtp, None) ∧
    getSRTCPSession (Transport r) = (srtcp, None) ∧
    readRTP r' b rd2 =
      match (srtp (enc_SSRC enc0)).1 with
      | Some s => ReadDone s (rd2 s b).1.1 (rd2 s b).1.2 (rd2 s b).2
      | None => ReadOnNil
      end ∧
    Read r' b rd1 =
      match (srtcp (enc_SSRC enc0)).1 with
      | Some s => ReadDone s (rd1 s b).1.1 (rd1 s b).1.2 (rd1 s b).2
      | None => ReadOnNil
      end.
Proof.
  intros H Hp. revert H. unfold Receive, Transport. rewrite Hp.
  destruct (received r) eqn:Hr; [intros H; discriminate H|].
  cbn [r_transport set_track set_rtpReadStream set_rtcpReadStream].
  destruct (getSRTPSession (r_transport r)) as [srtp [e1|]]; [intros H; discriminate H|].
  destruct (srtp (enc_SSRC enc0)) as [s1 [e2|]] eqn:H1; [intros H; discriminate H|].
  cbn [r_transport set_track set_rtpReadStream set_rtcpReadStream].
  destruct (getSRTCPSession (r_transport r)) as [srtcp [e3|]]; [intros H; discriminate H|].
  destruct (srtcp (enc_SSRC enc0)) as [s2 [e4|]] eqn:H2; [intros H; discriminate H|].
  intros H. injection H as <- _.
  exists srtp, srtcp. rewrite H1, H2. split; [reflexivity|]. split; [reflexivity|].
  unfold readRTP, Read. cbn.
  destruct s1 as [s1|], s2 as [s2|]; cbn;
    try destruct (rd2 s1 b) as [[? ?] ?]; try destruct (rd1 s2 b) as [[? ?] ?]; by split.
Qed.

Lemma reads_after_Receive_witness :
  ∃ srtp srtcp,
    getSRTPSession (Transport (receiver_on transport_ok)) = (srtp, None) ∧
    getSRTCPSession (Transport (receiver_on transport_ok)) = (srtcp, None) ∧
    readRTP (Receive (receiver_on transport_ok) encodings_qhf).1.1 [0; 0]%N rd_rtp_ok =
      match (srtp 1001%N).1 with
      | Some s => ReadDone s (rd_rtp_ok s [0; 0]%N).1.1 (rd_rtp_ok s [0; 0]%N).1.2
                    (rd_rtp_ok s [0; 0]%N).2
      | None => ReadOnNil
      end ∧
    Read (Receive (receiver_on transport_ok) encodings_qhf).1.1 [0; 0]%N rd_rtcp_ok =
      match (srtcp 1001%N).1 with
      | Some s => ReadDone s (rd_rtcp_ok s [0; 0]%N).1.1 (rd_rtcp_ok s [0; 0]%N).1.2
                    (rd_rtcp_ok s [0; 0]%N).2
      | None => ReadOnNil
      end.
Proof.
  apply (reads_after_Receive (receiver_on transport_ok) encodings_qhf
           (Receive (receiver_on transport_ok) encodings_qhf).1.1
           (Receive (receiver_on transport_ok) encodings_qhf).2
           {| enc_RID := "q"; enc_SSRC := 1001 |}
           [ {| enc_RID := "h"; enc_SSRC := 1002 |}; {| enc_RID := "f"; enc_SSRC := 1003 |} ]
           [0; 0]%N rd_rtcp_ok rd_rtp_ok); reflexivity.
Defined.

(** A [Receive] that fails for want of the SRTP session still releases the
    readers: on a receiver that held no stream, [Read], [ReadRTCP] and
    [readRTP] no longer wait and go on to call [Read] on a nil stream. *)
Theorem Receive_failure_releases_readers {P} mtu
    (U : list N → option (list P) * option error) r p srtp e b rd1 rd2 :
  Encodings p ≠ [] →
  received r = false →
  rtpReadStream r = None →
  rtcpReadStream r = None →
  getSRTPSession (r_transport r) = (srtp, Some e) →
  (Receive r p).1.2 = Some e ∧
  Read (Receive r p).1.1 b rd1 = ReadOnNil ∧
  ReadRTCP mtu U (Receive r p).1.1 rd1 = RTCPOnNil ∧
  readRTP (Receive r p).1.1 b rd2 = ReadOnNil.
Proof.
  intros Hne Hr H1 H2 Hs. unfold ReadRTCP, Read, readRTP, Receive.
  destruct (Encodings p) as [|enc0 rest]; [done|].
  rewrite Hr. cbn. rewrite Hs. cbn. rewrite H1, H2. done.
Qed.

Lemma Receive_failure_releases_readers_witness :
  (Receive (receiver_on transport_srtp_fails) encodings_single).1.2 = Some (ErrExternal 4) ∧
  Read (Receive (receiver_on transport_srtp_fails) encodings_single).1.1 [] rd_rtcp_ok
    = ReadOnNil ∧
  ReadRTCP 1500 (λ _ : list N, (Some ([] : list rtcp_Packet), None))
    (Receive (receiver_on transport_srtp_fails) encodings_single).1.1 rd_rtcp_ok
    = RTCPOnNil ∧
  readRTP (Receive (receiver_on transport_srtp_fails) encodings_single).1.1 [] rd_rtp_ok
    = ReadOnNil.
Proof.
  apply (Receive_failure_releases_readers 1500
           (λ _ : list N, (Some ([] : list rtcp_Packet), None))
           (receiver_on transport_srtp_fails) encodings_single
           (λ _, (None, None)) (ErrExternal 4) [] rd_rtcp_ok rd_rtp_ok);
    try reflexivity.
  discriminate.
Defined.

(** [ReadRTCP] unmarshals the first [i] bytes of a buffer of [receiveMTU]
    zero bytes that the control stream's [Read] has filled, and returns
    what [rtcp.Unmarshal] returns for them; a read error comes back as it
    is, with no packets. *)
Theorem ReadRTCP_unmarshals_prefix {P} mtu (U : list N → option (list P) * option error)
    r s rd b' i err :
  received r = true →
  rtcpReadStream r = Some s →
  rd s (replicate mtu 0%N) = (b', i, err) →
  ReadRTCP mtu U r rd =
    match err with
    | Some e => RTCPReturned None (Some e)
    | None =>
        if bool_decide (0 ≤ i ≤ Z.of_nat (length b'))%Z
        then RTCPReturned (U (take (Z.to_nat i) b')).1 (U (take (Z.to_nat i) b')).2
        else RTCPSliceOutOfRange
    end.
Proof.
  intros Hr Hs Hrd. unfold ReadRTCP, Read. rewrite Hr, Hs, Hrd.
  destruct err; [reflexivity|]. destruct (bool_decide _); [|reflexivity].
  by destruct (U _).
Qed.

Lemma ReadRTCP_unmarshals_prefix_witness :
  ReadRTCP 4 (λ bs : list N, (Some bs, None))
    (Receive (receiver_on transport_ok) encodings_single).1.1
    (λ _ _, ([128; 206; 0; 2]%N, 3%Z, None))
  = RTCPReturned (Some [128; 206; 0]%N) None.
Proof.
  apply (ReadRTCP_unmarshals_prefix 4 (λ bs : list N, (Some bs, None))
           (Receive (receiver_on transport_ok) encodings_single).1.1
           {| srtcp_stream_ssrc := 111 |}
           (λ _ _, ([128; 206; 0; 2]%N, 3%Z, None)) [128; 206; 0; 2]%N 3%Z None);
    reflexivity.
Defined.

(** ** The forward loops, further *)

Lemma rewrite_and_write_writes tracks rid0 packet werr :
  rtp_writes (rewrite_and_write tracks rid0 packet werr).1 =
    match tracks !! rid0, packet with
    | Some out, Some q => [(out, set_SSRC (out_SSRC out) q)]
    | _, _ => []
    end.
Proof. unfold rewrite_and_write. by destruct (tracks !! rid0), packet. Qed.

Lemma run_loop_ext body1 body2 script :
  Forall (λ it, body1 it = body2 it) script → run_loop body1 script = run_loop body2 script.
Proof.
  induction 1 as [|it script Hit _ IH]; [reflexivity|]. cbn. by rewrite Hit, IH.
Qed.

Lemma Simulcast_Echo_same tracks inStream script :
  Forall (λ it, read_err it = None) script →
  Simulcast.forward_loop tracks None inStream script = Echo.forward_loop tracks inStream script.
Proof.
  intros H. unfold Simulcast.forward_loop, Echo.forward_loop. apply run_loop_ext.
  eapply Forall_impl; [exact H|]. intros it Hit. cbn in Hit.
  unfold Simulcast.forward_body, Echo.forward_body. by rewrite Hit.
Qed.



Lemma run_loop_no_writes body script :
  (∀ it, rtp_writes (body it).1 = []) → rtp_writes (run_loop body script).1 = [].
Proof.
  intros Hb. induction script as [|it script IH]; [reflexivity|]. cbn.
  specialize (Hb it). destruct (body it) as [tr [v|]]; [exact Hb|].
  destruct (run_loop body script) as [tr' o]. cbn in *.
  unfold rtp_writes in *. by rewrite omap_app, Hb, IH.
Qed.

(** A stream whose RID has no outbound track is never forwarded: on a
    script that is not empty either loop reads once, writes nothing and
    is dead after the first turn (the simulcast loop whatever [main]'s
    [err] is). *)
Theorem forward_unmapped_never_writes tracks inStream err it script :
  tracks !! rid inStream = None →
  (Echo.forward_loop tracks inStream (it :: script)).1 = [EvReadRTP (rid inStream)] ∧
  (Simulcast.forward_loop tracks err inStream (it :: script)).1 = [EvReadRTP (rid inStream)] ∧
  rtp_writes (Echo.forward_loop tracks inStream (it :: script)).1 = [] ∧
  rtp_writes (Simulcast.forward_loop tracks err inStream (it :: script)).1 = [] ∧
  (Echo.forward_loop tracks inStream (it :: script)).2 ≠ Running ∧
  (Simulcast.forward_loop tracks err inStream (it :: script)).2 ≠ Running.
Proof.
  intros Hmiss. unfold Echo.forward_loop, Simulcast.forward_loop. cbn.
  unfold Echo.forward_body, Simulcast.forward_body, rewrite_and_write. rewrite Hmiss.
  destruct (read_err it), err; cbn; repeat split; discriminate.
Qed.

Lemma forward_unmapped_never_writes_witness :
  let s := {| id := "111"; rid := ""; ssrc := 111; ready := true |} in
  let script := [turn (Some (packet_of 2 111)) None None] in
  tracks_qhf !! rid s = None ∧
  (Echo.forward_loop tracks_qhf s (turn (Some (packet_of 1 111)) None None :: script)).1
    = [EvReadRTP (rid s)] ∧
  (Simulcast.forward_loop tracks_qhf None s
     (turn (Some (packet_of 1 111)) None None :: script)).1 = [EvReadRTP (rid s)] ∧
  rtp_writes (Echo.forward_loop tracks_qhf s
                (turn (Some (packet_of 1 111)) None None :: script)).1 = [] ∧
  rtp_writes (Simulcast.forward_loop tracks_qhf None s
                (turn (Some (packet_of 1 111)) None None :: script)).1 = [] ∧
  (Echo.forward_loop tracks_qhf s
     (turn (Some (packet_of 1 111)) None None :: script)).2 ≠ Running ∧
  (Simulcast.forward_loop tracks_qhf None s
     (turn (Some (packet_of 1 111)) None None :: script)).2 ≠ Running.
Proof.
  intros s script. split; [reflexivity|].
  apply (forward_unmapped_never_writes tracks_qhf s None
           (turn (Some (packet_of 1 111)) None None) script).
  reflexivity.
Defined.

Lemma body_writes_prefix out body :
  (∀ it, (rtp_writes (body it).1 = rewritten out (option_list (read_packet it)) ∧
          ((body it).2 = None → is_Some (read_packet it)))
         ∨ (rtp_writes (body it).1 = [] ∧ is_Some (body it).2)) →
  ∀ script, rtp_writes (run_loop body script).1
              `prefix_of` rewritten out (omap read_packet script).
Proof.
  intros Hb script. induction script as [|it script IH]; [by exists []|].
  cbn. destruct (Hb it) as [[Hw Hc]|[Hw [v Hv]]].
  - destruct (body it) as [tr [v|]]; cbn in *.
    + rewrite Hw. destruct (read_packet it) as [q|]; cbn.
      * by exists (rewritten out (omap read_packet script)).
      * apply prefix_nil.
    + destruct (Hc eq_refl) as [q Hq]. rewrite Hq in *. cbn in *.
      destruct (run_loop body script) as [tr' o]. cbn in *.
      unfold rtp_writes in *. rewrite omap_app, Hw. cbn.
      by apply prefix_cons.
  - destruct (body it) as [tr o]. cbn in *. subst o. cbn. rewrite Hw. apply prefix_nil.
Qed.

(** Neither loop reorders, repeats or makes up packets: what it has
    written at any point is, for some [k], the first [k] packets it read,
    in the order read, each with the outbound track's SSRC in place of its
    own. *)
Theorem forward_keeps_order tracks inStream out err script :
  tracks !! rid inStream = Some out →
  rtp_writes (Echo.forward_loop tracks inStream script).1
    `prefix_of` rewritten out (omap read_packet script) ∧
  rtp_writes (Simulcast.forward_loop tracks err inStream script).1
    `prefix_of` rewritten out (omap read_packet script).
Proof.
  intros Hout. split.
  - apply (body_writes_prefix out).
    intros it. unfold Echo.forward_body. destruct (read_err it); [right; by eauto|].
    pose proof (rewrite_and_write_writes tracks (rid inStream) (read_packet it) (write_err it)) as Hw.
    rewrite Hout in Hw. unfold rewrite_and_write in *. rewrite Hout in *.
    destruct (read_packet it) as [q|]; cbn in *.
    + left. split; [reflexivity|eauto].
    + right. split; [reflexivity|eauto].
  - apply (body_writes_prefix out).
    intros it. unfold Simulcast.forward_body. destruct err; [right; by eauto|].
    unfold rewrite_and_write. rewrite Hout.
    destruct (read_packet it) as [q|]; cbn in *.
    + left. split; [reflexivity|eauto].
    + right. split; [reflexivity|eauto].
Qed.

Lemma forward_keeps_order_witness :
  rtp_writes (Echo.forward_loop tracks_qhf stream_q
                [turn (Some (packet_of 1 1001)) None None;
                 turn (Some (packet_of 2 1001)) None (Some (ErrExternal 9));
                 turn (Some (packet_of 3 1001)) None None]).1
    `prefix_of` rewritten out_q
       (omap read_packet [turn (Some (packet_of 1 1001)) None None;
                          turn (Some (packet_of 2 1001)) None (Some (ErrExternal 9));
                          turn (Some (packet_of 3 1001)) None None]) ∧
  rtp_writes (Simulcast.forward_loop tracks_qhf None stream_q
                [turn (Some (packet_of 1 1001)) None None;
                 turn (Some (packet_of 2 1001)) None (Some (ErrExternal 9));
                 turn (Some (packet_of 3 1001)) None None]).1
    `prefix_of` rewritten out_q
       (omap read_packet [turn (Some (packet_of 1 1001)) None None;
                          turn (Some (packet_of 2 1001)) None (Some (ErrExternal 9));
                          turn (Some (packet_of 3 1001)) None None]).
Proof.
  apply (forward_keeps_order tracks_qhf stream_q out_q None). reflexivity.
Defined.

(** On a script of healthy turns either loop forwards every packet it
    reads, one write for each read and in the same order, and is still
    running at the end, although writes may have met a closed pipe. *)
Theorem forward_healthy tracks inStream out script :
  tracks !! rid inStream = Some out →
  Forall healthy script →
  (Echo.forward_loop tracks inStream script).2 = Running ∧
  rtp_writes (Echo.forward_loop tracks inStream script).1
    = rewritten out (omap read_packet script) ∧
  length (rtp_writes (Echo.forward_loop tracks inStream script).1) = length script ∧
  rtp_reads (Echo.forward_loop tracks inStream script).1
    = replicate (length script) (rid inStream) ∧
  Simulcast.forward_loop tracks None inStream script = Echo.forward_loop tracks inStream script.
Proof.
  intros Hout Hh.
  assert (Hs : Simulcast.forward_loop tracks None inStream script
               = Echo.forward_loop tracks inStream script).
  { apply Simulcast_Echo_same. eapply Forall_impl; [exact Hh|]. by intros it [? _]. }
  cut ((Echo.forward_loop tracks inStream script).2 = Running ∧
       rtp_writes (Echo.forward_loop tracks inStream script).1
         = rewritten out (omap read_packet script) ∧
       length (omap read_packet script) = length script ∧
       rtp_reads (Echo.forward_loop tracks inStream script).1
         = replicate (length script) (rid inStream)).
  { intros (H1 & H2 & H3 & H4). rewrite H2. unfold rewritten. rewrite length_fmap. auto. }
  clear Hs. unfold Echo.forward_loop.
  induction Hh as [|it script (Hr & [q Hq] & Hw) _ (IH1 & IH2 & IH3 & IH4)]; [done|].
  cbn. unfold Echo.forward_body at 1 3 5. rewrite Hr, Hq.
  rewrite (rewrite_and_write_mapped tracks (rid inStream) q (write_err it) out Hout).
  assert (Hnone : match write_err it with
                  | Some e => if decide (e = ErrClosedPipe) then None
                              else Some (PanicError (Some e))
                  | None => None
                  end = None).
  { destruct Hw as [-> | ->]; [reflexivity|]. by destruct (decide _). }
  rewrite Hnone.
  destruct (run_loop (Echo.forward_body tracks (rid inStream)) script) as [tr o].
  cbn in *. rewrite IH2, IH3, IH4. auto.
Qed.

Lemma forward_healthy_witness :
  (Echo.forward_loop tracks_qhf stream_q
     [turn (Some (packet_of 1 1001)) None None;
      turn (Some (packet_of 2 1001)) None (Some ErrClosedPipe)]).2 = Running ∧
  rtp_writes (Echo.forward_loop tracks_qhf stream_q
                [turn (Some (packet_of 1 1001)) None None;
                 turn (Some (packet_of 2 1001)) None (Some ErrClosedPipe)]).1
    = rewritten out_q (omap read_packet
                         [turn (Some (packet_of 1 1001)) None None;
                          turn (Some (packet_of 2 1001)) None (Some ErrClosedPipe)]) ∧
  length (rtp_writes (Echo.forward_loop tracks_qhf stream_q
                        [turn (Some (packet_of 1 1001)) None None;
                         turn (Some (packet_of 2 1001)) None (Some ErrClosedPipe)]).1)
    = length [turn (Some (packet_of 1 1001)) None None;
              turn (Some (packet_of 2 1001)) None (Some ErrClosedPipe)] ∧
  rtp_reads (Echo.forward_loop tracks_qhf stream_q
               [turn (Some (packet_of 1 1001)) None None;
                turn (Some (packet_of 2 1001)) None (Some ErrClosedPipe)]).1
    = replicate (length [turn (Some (packet_of 1 1001)) None None;
                         turn (Some (packet_of 2 1001)) None (Some ErrClosedPipe)])
        (rid stream_q) ∧
  Simulcast.forward_loop tracks_qhf None stream_q
    [turn (Some (packet_of 1 1001)) None None;
     turn (Some (packet_of 2 1001)) None (Some ErrClosedPipe)]
  = Echo.forward_loop tracks_qhf stream_q
      [turn (Some (packet_of 1 1001)) None None;
       turn (Some (packet_of 2 1001)) None (Some ErrClosedPipe)].
Proof.
  apply (forward_healthy tracks_qhf stream_q out_q
           [turn (Some (packet_of 1 1001)) None None;
            turn (Some (packet_of 2 1001)) None (Some ErrClosedPipe)]).
  - reflexivity.
  - constructor; [|constructor; [|constructor]].
    + split; [reflexivity|]. split; [by eexists|]. by left.
    + split; [reflexivity|]. split; [by eexists|]. by right.
Defined.

(** ** The feedback tickers, further *)

Lemma logged_app tr1 tr2 : logged (tr1 ++ tr2) = logged tr1 ++ logged tr2.
Proof. apply omap_app. Qed.

Lemma Echo_tick_logged inStream w : logged (Echo.feedback_tick inStream w) = tick_errors w.
Proof. destruct w as [[e1|] [e2|]]; reflexivity. Qed.

Lemma Simulcast_tick_logged inStream w :
  logged (Simulcast.feedback_tick inStream w) = tick_errors w.
Proof. destruct w as [[e1|] [e2|]]; reflexivity. Qed.

Lemma Echo_loop_logged inStream ticks :
  logged (Echo.feedback_loop inStream ticks) = ticks ≫= tick_errors.
Proof.
  unfold Echo.feedback_loop. induction ticks as [|w ticks IH]; [reflexivity|].
  rewrite fmap_cons. cbn [concat]. by rewrite logged_app, Echo_tick_logged, IH.
Qed.

Lemma Simulcast_loop_logged inStream ticks :
  logged (Simulcast.feedback_loop inStream ticks) = ticks ≫= tick_errors.
Proof.
  unfold Simulcast.feedback_loop. induction ticks as [|w ticks IH]; [reflexivity|].
  rewrite fmap_cons. cbn [concat]. by rewrite logged_app, Simulcast_tick_logged, IH.
Qed.

Lemma two_per_tick {A B} (ticks : list A) (x y : B) :
  length (ticks ≫= (λ _, [x; y])) = (2 * length ticks)%nat.
Proof. induction ticks as [|w ticks IH]; [reflexivity|]. cbn in *. rewrite IH. lia. Qed.

(** Feedback is best effort.  A [WriteRTCP] that fails is printed and
    nothing more: what a ticker does on later ticks does not depend on how
    earlier ticks went, every tick sends its two packets, and the errors
    printed are those the writes returned, in the order they were made. *)
Theorem feedback_best_effort inStream ticks ticks' :
  Echo.feedback_loop inStream (ticks ++ ticks')
    = Echo.feedback_loop inStream ticks ++ Echo.feedback_loop inStream ticks' ∧
  Simulcast.feedback_loop inStream (ticks ++ ticks')
    = Simulcast.feedback_loop inStream ticks ++ Simulcast.feedback_loop inStream ticks' ∧
  length (rtcp_sent (Echo.feedback_loop inStream ticks)) = (2 * length ticks)%nat ∧
  length (rtcp_sent (Simulcast.feedback_loop inStream ticks)) = (2 * length ticks)%nat ∧
  logged (Echo.feedback_loop inStream ticks) = ticks ≫= tick_errors ∧
  logged (Simulcast.feedback_loop inStream ticks) = ticks ≫= tick_errors.
Proof.
  split; [unfold Echo.feedback_loop; by rewrite fmap_app, concat_app|].
  split; [unfold Simulcast.feedback_loop; by rewrite fmap_app, concat_app|].
  rewrite Echo_loop_sent, Simulcast_loop_sent, !two_per_tick.
  split; [reflexivity|]. split; [reflexivity|].
  split; [apply Echo_loop_logged | apply Simulcast_loop_logged].
Qed.

(** ** main *)

Lemma outputTracks_lookup pt a b c :
  outputTracks pt a b c !! "q"
    = Some {| out_PayloadType := pt; out_SSRC := a; out_ID := "video_q"; out_Label := "pion_q" |} ∧
  outputTracks pt a b c !! "h"
    = Some {| out_PayloadType := pt; out_SSRC := b; out_ID := "video_h"; out_Label := "pion_h" |} ∧
  outputTracks pt a b c !! "f"
    = Some {| out_PayloadType := pt; out_SSRC := c; out_ID := "video_f"; out_Label := "pion_f" |}.
Proof. repeat split; reflexivity. Qed.

(** The output tracks hold the keys [q], [h] and [f] and no other, so the
    layer of a track that is not simulcast, whose RID is empty, has no
    outbound track. *)
Theorem outputTracks_keys pt a b c (k : string) :
  is_Some (outputTracks pt a b c !! k) ↔ k = "q" ∨ k = "h" ∨ k = "f".
Proof.
  unfold outputTracks. rewrite !lookup_insert_is_Some, lookup_empty.
  split.
  - intros [H|[_ [H|[_ [H|[_ [? H]]]]]]]; try subst k; auto. discriminate H.
  - intros [-> | [-> | ->] ].
    + right. split; [done|]. right. split; [done|]. by left.
    + right. split; [done|]. by left.
    + by left.
Qed.

(** How [main] gets from one statement to the next. *)
Lemma step_emit ev (b : main_step) tr er ts n :
  (emit ev ;;; b) {| m_trace := tr; m_err := er; m_outputTracks := ts; m_rand := n |}
  = b {| m_trace := tr ++ [ev]; m_err := er; m_outputTracks := ts; m_rand := n |}.
Proof. reflexivity. Qed.

Lemma step_check e (b : main_step) tr er ts n :
  (assign_err e ;;; panic_on_err ;;; b)
    {| m_trace := tr; m_err := er; m_outputTracks := ts; m_rand := n |}
  = match e with
    | Some x => ({| m_trace := tr; m_err := Some x; m_outputTracks := ts; m_rand := n |},
                 Some (MainPanicError x))
    | None => b {| m_trace := tr; m_err := None; m_outputTracks := ts; m_rand := n |}
    end.
Proof. by destruct e. Qed.

Lemma step_check_last e tr er ts n :
  (assign_err e ;;; panic_on_err)
    {| m_trace := tr; m_err := er; m_outputTracks := ts; m_rand := n |}
  = ({| m_trace := tr; m_err := e; m_outputTracks := ts; m_rand := n |},
     MainPanicError <$> e).
Proof. reflexivity. Qed.

Lemma step_new_track env pt key tid label (b : main_step) tr er ts n :
  (new_output_track env pt key tid label ;;; b)
    {| m_trace := tr; m_err := er; m_outputTracks := ts; m_rand := n |}
  = match env_NewTrack env tid with
    | Some x => ({| m_trace := tr ++ [MNewTrack pt (env_rand env n) tid label];
                    m_err := Some x; m_outputTracks := ts; m_rand := S n |},
                 Some (MainPanicError x))
    | None => b {| m_trace := tr ++ [MNewTrack pt (env_rand env n) tid label];
                   m_err := None;
                   m_outputTracks :=
                     <[key := {| out_PayloadType := pt; out_SSRC := env_rand env n;
                                 out_ID := tid; out_Label := label |}]> ts;
                   m_rand := S n |}
    end.
Proof.
  unfold main_seq, new_output_track. cbn [m_err m_trace m_outputTracks m_rand].
  by destruct (env_NewTrack env tid).
Qed.

Lemma step_add_track env key (b : main_step) tr er ts n :
  (add_output_track env key ;;; b)
    {| m_trace := tr; m_err := er; m_outputTracks := ts; m_rand := n |}
  = match env_AddTrack env (ts !! key) with
    | Some x => ({| m_trace := tr ++ [MAddTrack (ts !! key)]; m_err := Some x;
                    m_outputTracks := ts; m_rand := n |}, Some (MainPanicError x))
    | None => b {| m_trace := tr ++ [MAddTrack (ts !! key)]; m_err := None;
                   m_outputTracks := ts; m_rand := n |}
    end.
Proof.
  unfold main_seq at 1. unfold add_output_track. cbn [m_outputTracks].
  rewrite step_emit. unfold main_seq, assign_err, panic_on_err.
  cbn [m_err m_trace m_outputTracks m_rand].
  by destruct (env_AddTrack env (ts !! key)).
Qed.

(** Runs [main] up to the next answer of a collaborator. *)
Ltac main_norm :=
  repeat first
    [ rewrite step_emit | rewrite step_check | rewrite step_new_track
    | rewrite step_add_track ];
  cbn [app fst snd].

(** Takes the next answer of a collaborator both ways. *)
Ltac main_oracle o := destruct o eqn:?; main_norm.

(** [main] gets to its [select {}] only if every collaborator answered
    without an error and the offer had a video codec.  By then [err] is
    nil, the output tracks are the three made for [q], [h] and [f] with
    the first video codec's payload type and the three random SSRCs, in
    that order, each was added to the peer connection, and the [OnTrack]
    handler was registered after all that. *)
Theorem main_reaches_select env :
  (main env).2 = None →
  ∃ codec0 rest,
    let pt := codec_PayloadType codec0 in
    let tracks := outputTracks pt (env_rand env 0) (env_rand env 1) (env_rand env 2) in
    env_GetCodecsByKind env = codec0 :: rest ∧
    env_PopulateFromSDP env = None ∧
    env_NewPeerConnection env = None ∧
    env_NewTrack env "video_q" = None ∧
    env_NewTrack env "video_h" = None ∧
    env_NewTrack env "video_f" = None ∧
    env_AddTrack env (tracks !! "q") = None ∧
    env_AddTrack env (tracks !! "h") = None ∧
    env_AddTrack env (tracks !! "f") = None ∧
    env_SetRemoteDescription env = None ∧
    env_CreateAnswer env = None ∧
    env_SetLocalDescription env = None ∧
    m_err (main env).1 = None ∧
    m_outputTracks (main env).1 = tracks ∧
    m_trace (main env).1 =
      [MDecodeOffer; MPopulateFromSDP; MGetCodecsByKind; MNewAPI; MNewPeerConnection;
       MNewTrack pt (env_rand env 0) "video_q" "pion_q";
       MNewTrack pt (env_rand env 1) "video_h" "pion_h";
       MNewTrack pt (env_rand env 2) "video_f" "pion_f";
       MAddTrack (tracks !! "q"); MAddTrack (tracks !! "h"); MAddTrack (tracks !! "f");
       MPrintf "offer: %s\n"; MSetRemoteDescription; MOnTrack;
       MOnICEConnectionStateChange; MCreateAnswer; MPrintf "answer: %s\n";
       MSetLocalDescription; MPrintf "Paste below base64 in browser:\n%v\n"].
Proof.
  unfold main. main_norm.
  main_oracle (env_PopulateFromSDP env); [intros H; discriminate H|].
  destruct (env_GetCodecsByKind env) as [|codec0 rest]; main_norm;
    [intros H; discriminate H|].
  main_oracle (env_NewPeerConnection env); [intros H; discriminate H|].
  main_oracle (env_NewTrack env "video_q"); [intros H; discriminate H|].
  main_oracle (env_NewTrack env "video_h"); [intros H; discriminate H|].
  main_oracle (env_NewTrack env "video_f"); [intros H; discriminate H|].
  fold (outputTracks (codec_PayloadType codec0) (env_rand env 0) (env_rand env 1)
          (env_rand env 2)).
  main_oracle (env_AddTrack env
                 (outputTracks (codec_PayloadType codec0) (env_rand env 0) (env_rand env 1)
                    (env_rand env 2) !! "q")); [intros H; discriminate H|].
  main_oracle (env_AddTrack env
                 (outputTracks (codec_PayloadType codec0) (env_rand env 0) (env_rand env 1)
                    (env_rand env 2) !! "h")); [intros H; discriminate H|].
  main_oracle (env_AddTrack env
                 (outputTracks (codec_PayloadType codec0) (env_rand env 0) (env_rand env 1)
                    (env_rand env 2) !! "f")); [intros H; discriminate H|].
  main_oracle (env_SetRemoteDescription env); [intros H; discriminate H|].
  main_oracle (env_CreateAnswer env); [intros H; discriminate H|].
  main_oracle (env_SetLocalDescription env); [intros H; discriminate H|].
  intros _. exists codec0, rest. cbn zeta. repeat split; assumption || reflexivity.
Qed.

Lemma main_reaches_select_witness :
  (main env_ok).2 = None ∧
  m_err (main env_ok).1 = None ∧
  m_outputTracks (main env_ok).1 = tracks_qhf ∧
  (∃ codec0 rest, env_GetCodecsByKind env_ok = codec0 :: rest ∧
                  env_AddTrack env_ok (tracks_qhf !! "q") = None).
Proof.
  assert (H : (main env_ok).2 = None) by (vm_compute; reflexivity).
  split; [exact H|].
  destruct (main_reaches_select env_ok H)
    as (codec0 & rest & Hc & _ & _ & _ & _ & _ & Ha & _ & _ & _ & _ & _ & He & Ht & _).
  injection Hc as <- <-.
  split; [exact He|]. split; [exact Ht|]. eexists _, _. split; [reflexivity|exact Ha].
Defined.

(** The [OnTrack] handler is registered only once the three output tracks
    are in the map and have been added to the peer connection and the
    remote description is set; the map is not touched afterwards.  If
    [main] panics after that, it is with the error of [CreateAnswer] or of
    [SetLocalDescription]. *)
Theorem main_registers_after_tracks env :
  MOnTrack ∈ m_trace (main env).1 →
  ∃ codec0 rest,
    let pt := codec_PayloadType codec0 in
    let tracks := outputTracks pt (env_rand env 0) (env_rand env 1) (env_rand env 2) in
    env_GetCodecsByKind env = codec0 :: rest ∧
    m_outputTracks (main env).1 = tracks ∧
    [MDecodeOffer; MPopulateFromSDP; MGetCodecsByKind; MNewAPI; MNewPeerConnection;
     MNewTrack pt (env_rand env 0) "video_q" "pion_q";
     MNewTrack pt (env_rand env 1) "video_h" "pion_h";
     MNewTrack pt (env_rand env 2) "video_f" "pion_f";
     MAddTrack (tracks !! "q"); MAddTrack (tracks !! "h"); MAddTrack (tracks !! "f");
     MPrintf "offer: %s\n"; MSetRemoteDescription; MOnTrack]
      `prefix_of` m_trace (main env).1 ∧
    env_SetRemoteDescription env = None ∧
    ∀ p, (main env).2 = Some p →
         ∃ e, p = MainPanicError e ∧
              (env_CreateAnswer env = Some e ∨ env_SetLocalDescription env = Some e).
Proof.
  unfold main. main_norm.
  main_oracle (env_PopulateFromSDP env); [intros H; by trace_cases H|].
  destruct (env_GetCodecsByKind env) as [|codec0 rest]; main_norm;
    [intros H; by trace_cases H|].
  main_oracle (env_NewPeerConnection env); [intros H; by trace_cases H|].
  main_oracle (env_NewTrack env "video_q"); [intros H; by trace_cases H|].
  main_oracle (env_NewTrack env "video_h"); [intros H; by trace_cases H|].
  main_oracle (env_NewTrack env "video_f"); [intros H; by trace_cases H|].
  fold (outputTracks (codec_PayloadType codec0) (env_rand env 0) (env_rand env 1)
          (env_rand env 2)).
  main_oracle (env_AddTrack env
                 (outputTracks (codec_PayloadType codec0) (env_rand env 0) (env_rand env 1)
                    (env_rand env 2) !! "q")); [intros H; by trace_cases H|].
  main_oracle (env_AddTrack env
                 (outputTracks (codec_PayloadType codec0) (env_rand env 0) (env_rand env 1)
                    (env_rand env 2) !! "h")); [intros H; by trace_cases H|].
  main_oracle (env_AddTrack env
                 (outputTracks (codec_PayloadType codec0) (env_rand env 0) (env_rand env 1)
                    (env_rand env 2) !! "f")); [intros H; by trace_cases H|].
  main_oracle (env_SetRemoteDescription env); [intros H; by trace_cases H|].
  main_oracle (env_CreateAnswer env); [|main_oracle (env_SetLocalDescription env)];
    intros _; exists codec0, rest; cbn zeta;
    (split; [reflexivity|]); (split; [reflexivity|]);
    (split; [by eexists|]); (split; [reflexivity|]);
    intros p Hp; try discriminate Hp; injection Hp as <-; eauto.
Qed.

Lemma main_registers_after_tracks_witness :
  MOnTrack ∈ m_trace (main env_ok).1 ∧
  m_outputTracks (main env_ok).1 = tracks_qhf ∧
  env_SetRemoteDescription env_ok = None.
Proof.
  assert (H : MOnTrack ∈ m_trace (main env_ok).1).
  { vm_compute. do 14 constructor. }
  split; [exact H|].
  destruct (main_registers_after_tracks env_ok H) as (codec0 & rest & Hc & Ht & _ & Hs & _).
  injection Hc as <- <-. split; [exact Ht|exact Hs].
Defined.

(** An offer without video codecs stops [main] before it builds anything:
    if [PopulateFromSDP] failed [main] panics with its error, otherwise
    with "Offer contained no video codecs"; either way no peer connection
    is made, no track is created and no handler is registered, so
    [videoCodecs[0]] is only ever read of a list that has it. *)
Theorem main_without_video_codecs env :
  env_GetCodecsByKind env = [] →
  (main env).2 = Some (match env_PopulateFromSDP env with
                       | Some e => MainPanicError e
                       | None => MainPanicString "Offer contained no video codecs"
                       end) ∧
  m_outputTracks (main env).1 = ∅ ∧
  (∀ ev, ev ∈ m_trace (main env).1 →
         ev = MDecodeOffer ∨ ev = MPopulateFromSDP ∨ ev = MGetCodecsByKind).
Proof.
  intros Hc. unfold main. main_norm. rewrite Hc.
  main_oracle (env_PopulateFromSDP env);
    (split; [reflexivity|]); (split; [reflexivity|]);
    intros ev H; trace_cases H; subst ev; auto.
Qed.

Lemma main_without_video_codecs_witness :
  (main env_no_codecs).2 = Some (MainPanicString "Offer contained no video codecs") ∧
  m_outputTracks (main env_no_codecs).1 = ∅ ∧
  (∀ ev, ev ∈ m_trace (main env_no_codecs).1 →
         ev = MDecodeOffer ∨ ev = MPopulateFromSDP ∨ ev = MGetCodecsByKind).
Proof.
  apply (main_without_video_codecs env_no_codecs). reflexivity.
Defined.
